(** * Response shaping of the vLLM completion route

  A shallow embedding of [api/vllm_routes/completion.py]: the logprobs
  builder [create_logprobs], the streaming generator
  [generate_completion_stream_generator] and the endpoint
  [create_completion], with the properties of the response-shaping layer
  proved over them.

  Conventions.
  - A Python [str] is a sequence of code points: [pystr := list N], so that
    [len] and slicing count code points as Python does.
  - A Python [int] is a [Z]; a length or a list position is a [nat].
  - A Python [float] is only ever copied by this module, never computed
    with: it is an abstract type [float], fixed in a section.
  - A Python [dict] keeps insertion order and has unique keys: [Dict.t] is
    an association list with Python's lookup and item assignment.
  - A raised exception is a value of [pyexn]; a computation that can raise
    returns a [result]. *)

From stdpp Require Import base numbers list strings.

Set Default Proof Using "Type".
#[local] Set Warnings "-register-all".
Local Open Scope Z_scope.

(** ** Python values *)

Abbreviation pystr := (list N) (only parsing).

(** An ASCII source literal as a Python string. *)
Definition py (s : string) : pystr :=
map Stdlib.Strings.Ascii.N_of_ascii (Stdlib.Strings.String.list_ascii_of_string s).

(** U+FFFD, the character that [output.text.replace("�", "")] removes. *)
Definition REPLACEMENT_CHARACTER : N := 65533%N.

(** [text.replace(c, "")] for the one-character string [c]. *)
Definition remove_char (c : N) (text : pystr) : pystr :=
filter (λ x, x ≠ c) text.

Definition strip_replacement (text : pystr) : pystr :=
remove_char REPLACEMENT_CHARACTER text.

(** Exceptions this module can raise, by Python class. *)
Inductive pyexn :=
| KeyError (key : Z)
| IndexError
| AssertionError
| HTTPException (status_code : Z) (detail : pystr).

Definition exn_class (e : pyexn) : string :=
match e with
| KeyError _ => "KeyError"
| IndexError => "IndexError"
| AssertionError => "AssertionError"
| HTTPException _ _ => "HTTPException"
end.

Inductive result (A : Type) :=
| Ok (a : A)
| Raise (e : pyexn).
Arguments Ok {A} a.
Arguments Raise {A} e.

Definition is_ok {A} (r : result A) : Prop :=
match r with Ok _ => True | Raise _ => False end.

Definition result_bind {A B} (r : result A) (k : A → result B) : result B :=
  match r with
  | Ok a => k a
  | Raise e => Raise e
  end.

Definition result_map {A B} (f : A → B) (r : result A) : result B :=
  result_bind r (λ a, Ok (f a)).

Declare Scope result_scope.
Delimit Scope result_scope with result.
Notation "'let!' x ':=' c 'in' k" := (result_bind c (λ x, k))
  (at level 10, x name, c at level 200, k at level 200, only parsing)
  : result_scope.

(** [l[i]] for a position [i]. *)
Definition list_item {A} (l : list A) (i : nat) : result A :=
  match l !! i with
  | Some x => Ok x
  | None => Raise IndexError
  end.

(** [l[i] = x] for a position [i]. *)
Definition list_assign {A} (l : list A) (i : nat) (x : A) : result (list A) :=
  if decide (i < length l)%nat then Ok (<[i:=x]> l) else Raise IndexError.

(** ** Dictionaries *)

Module Dict.
Section dict.
Context {K V : Type} `{EqDecision K}.

Definition t := list (K * V).

(** [d[k]], [None] standing for the [KeyError]. *)
Fixpoint get (k : K) (d : t) : option V :=
  match d with
  | [] => None
  | (k', v) :: d' => if decide (k' = k) then Some v else get k d'
  end.

(** [d[k] = v]: an existing key keeps its place, a new one goes last. *)
Fixpoint set (k : K) (v : V) (d : t) : t :=
  match d with
  | [] => [(k, v)]
  | (k', v') :: d' =>
      if decide (k' = k) then (k', v) :: d' else (k', v') :: set k v d'
  end.

End dict.
Arguments t : clear implicits.
End Dict.

(** ** The logprobs builder *)

Section completion.
Context {float : Type}.

(** [tokenizer.convert_ids_to_tokens]: the display text of a token id. *)
Definition tokenizer := Z → pystr.

(** [openai.types.completion_choice.Logprobs]. *)
Record Logprobs := mkLogprobs {
  text_offset : list Z;
  token_logprobs : list float;
  tokens : list pystr;
  top_logprobs : list (Dict.t pystr float);
}.

(** [Logprobs(text_offset=[], token_logprobs=[], tokens=[], top_logprobs=[])] *)
Definition empty_logprobs : Logprobs := mkLogprobs [] [] [] [].

(** [{tokenizer.convert_ids_to_tokens(i): p for i, p in id_logprob.items()}] *)
Definition top_candidates (tok : tokenizer) (id_logprob : Dict.t Z float)
  : Dict.t pystr float :=
  fold_left (λ acc ip, Dict.set (tok ip.1) ip.2 acc) id_logprob [].

(** The body of the [for] loop of [create_logprobs], run over the pairs that
    [zip] still has to deliver; [logprobs] and [last_token_len] are the
    loop's two variables. *)
Fixpoint logprobs_loop (tok : tokenizer) (initial_text_offset : Z)
    (pairs : list (Z * Dict.t Z float))
    (logprobs : Logprobs) (last_token_len : Z) : result Logprobs :=
  match pairs with
  | [] => Ok logprobs
  | (token_id, id_logprob) :: pairs' =>
      let token := tok token_id in
      let tokens' := tokens logprobs ++ [token] in
      match Dict.get token_id id_logprob with
      | None => Raise (KeyError token_id)
      | Some chosen =>
          let token_logprobs' := token_logprobs logprobs ++ [chosen] in
          let text_offset' :=
            match last (text_offset logprobs) with
            | None => text_offset logprobs ++ [initial_text_offset]
            | Some prev => text_offset logprobs ++ [prev + last_token_len]
            end in
          let last_token_len' := Z.of_nat (length token) in
          let top_logprobs' :=
            top_logprobs logprobs ++ [top_candidates tok id_logprob] in
          logprobs_loop tok initial_text_offset pairs'
            (mkLogprobs text_offset' token_logprobs' tokens' top_logprobs')
            last_token_len'
      end
  end.

Definition create_logprobs (tok : tokenizer) (token_ids : list Z)
    (id_logprobs : list (Dict.t Z float)) (initial_text_offset : Z)
  : result Logprobs :=
  logprobs_loop tok initial_text_offset (zip token_ids id_logprobs)
    empty_logprobs 0.

(** ** Engine snapshots and wire records *)

(** [vllm.outputs.CompletionOutput]; the engine numbers the outputs of a
    request from 0. *)
Record CompletionOutput := mkCompletionOutput {
  index : nat;
  text : pystr;
  token_ids : list Z;
  logprobs : list (Dict.t Z float);
  finish_reason : option pystr;
}.

(** [vllm.outputs.RequestOutput], one snapshot of the generation. *)
Record RequestOutput := mkRequestOutput {
  prompt_token_ids : list Z;
  outputs : list CompletionOutput;
}.

(** [openai.types.completion_choice.CompletionChoice]. *)
Record CompletionChoice := mkCompletionChoice {
  choice_index : nat;
  choice_text : pystr;
  choice_finish_reason : option pystr;
  choice_logprobs : option Logprobs;
}.

(** [openai.types.completion_usage.CompletionUsage]. *)
Record CompletionUsage := mkCompletionUsage {
  prompt_tokens : Z;
  completion_tokens : Z;
  total_tokens : Z;
}.

(** [openai.types.completion.Completion], with the fields this module sets;
    [usage] defaults to [None]. *)
Record Completion := mkCompletion {
  completion_id : pystr;
  choices : list CompletionChoice;
  created : Z;
  model : pystr;
  object : pystr;
  usage : option CompletionUsage;
}.

(** The prompt of a request: a string, or one of the list forms. *)
Inductive prompt_t :=
| PromptStr (s : pystr)
| PromptStrs (l : list pystr)
| PromptIds (l : list Z)
| PromptIdLists (l : list (list Z)).

(** [api.utils.protocol.CompletionCreateParams], with the fields this module
    reads; the sampling fields are only handed to [SamplingParams]. *)
Record CompletionCreateParams := mkCompletionCreateParams {
  req_echo : option bool;
  req_suffix : option pystr;
  req_max_tokens : option Z;
  req_prompt : prompt_t;
  req_n : Z;
  req_stream : option bool;
  req_logprobs : option Z;
  req_model : pystr;
}.

(** ** Serialization

    [chunk.model_dump_json(exclude_none=...)], kept as the call it is and
    rendered by [model_dump_json] to the JSON value pydantic writes. *)

Inductive json :=
| JNull
| JInt (z : Z)
| JFloat (f : float)
| JStr (s : pystr)
| JList (l : list json)
| JObject (fields : list (pystr * json)).

Record dumped := mkDumped {
  dump_exclude_none : bool;
  dump_chunk : Completion;
}.

(** The fields of a model: a [None] field is written as [null], or left out
    under [exclude_none]. *)
Definition dump_optional (exclude_none : bool) (name : pystr)
    (value : option json) : list (pystr * json) :=
  match value with
  | Some j => [(name, j)]
  | None => if exclude_none then [] else [(name, JNull)]
  end.

Definition dump_Logprobs (lp : Logprobs) : json :=
  JObject
    [ (py "text_offset", JList (map JInt (text_offset lp)));
      (py "token_logprobs", JList (map JFloat (token_logprobs lp)));
      (py "tokens", JList (map JStr (tokens lp)));
      (py "top_logprobs",
        JList (map (λ d : Dict.t pystr float,
                      JObject (map (λ kv, (kv.1, JFloat kv.2)) d))
                 (top_logprobs lp))) ].

Definition dump_CompletionChoice (exclude_none : bool) (c : CompletionChoice)
  : json :=
  JObject
    (dump_optional exclude_none (py "finish_reason")
       (JStr <$> choice_finish_reason c)
     ++ [(py "index", JInt (Z.of_nat (choice_index c)))]
     ++ dump_optional exclude_none (py "logprobs")
          (dump_Logprobs <$> choice_logprobs c)
     ++ [(py "text", JStr (choice_text c))]).






(** ** The streaming generator *)

(** The generator's variables: the two per-choice lists, and how many times
    [time.time()] has been read. *)
Record stream_state := mkStreamState {
  previous_texts : list pystr;
  previous_num_tokens : list nat;
  time_calls : nat;
}.

(** The [Completion] both [yield]s build around their one choice. *)
Definition stream_chunk (request : CompletionCreateParams)
    (request_id : pystr) (now : Z) (i : nat) (delta_text : pystr)
    (lp : option Logprobs) : Completion :=
  mkCompletion request_id
    [mkCompletionChoice i delta_text (Some (py "stop")) lp]
    now (req_model request) (py "text_completion") None.

(** The body of [for output in res.outputs]: the chunks it yields and the
    variables afterwards, or the exception that ends the generator. Nothing
    can raise once the first chunk is yielded. Assigning the stripped text
    back to [output.text] is not a visible effect: stripping again changes
    nothing. *)
Definition stream_output (clock : nat → Z) (request : CompletionCreateParams)
    (request_id : pystr) (tok : tokenizer) (st : stream_state)
    (output : CompletionOutput) : result (list dumped * stream_state) :=
  (let i := index output in
   let output_text := strip_replacement (text output) in
   let! previous_text := list_item (previous_texts st) i in
   let delta_text := drop (length previous_text) output_text in
   let! lp :=
     match req_logprobs request with
     | Some _ =>
         (let! previous_num := list_item (previous_num_tokens st) i in
          result_map Some
            (create_logprobs tok
               (drop previous_num (token_ids output))
               (drop previous_num (logprobs output))
               (Z.of_nat (length previous_text))))
     | None => Ok None
     end in
   let! previous_texts' := list_assign (previous_texts st) i output_text in
   let! previous_num_tokens' :=
     list_assign (previous_num_tokens st) i (length (token_ids output)) in
   let content :=
     mkDumped false
       (stream_chunk request request_id (clock (time_calls st)) i delta_text lp) in
   match finish_reason output with
   | Some _ =>
       let lp_end :=
         match req_logprobs request with
         | Some _ => Some empty_logprobs
         | None => None
         end in
       let terminal :=
         mkDumped true
           (stream_chunk request request_id (clock (S (time_calls st))) i
              delta_text lp_end) in
       Ok ([content; terminal],
           mkStreamState previous_texts' previous_num_tokens'
             (S (S (time_calls st))))
   | None =>
       Ok ([content],
           mkStreamState previous_texts' previous_num_tokens'
             (S (time_calls st)))
   end)%result.

(** [for output in res.outputs]: what is yielded, and how the loop ends. *)
Fixpoint stream_outputs (clock : nat → Z) (request : CompletionCreateParams)
    (request_id : pystr) (tok : tokenizer) (outs : list CompletionOutput)
    (st : stream_state) : list dumped * result stream_state :=
  match outs with
  | [] => ([], Ok st)
  | output :: outs' =>
      match stream_output clock request request_id tok st output with
      | Raise e => ([], Raise e)
      | Ok (chunks, st') =>
          let '(more, r) :=
            stream_outputs clock request request_id tok outs' st' in
          (chunks ++ more, r)
      end
  end.

(** [async for res in result_generator]. *)
Fixpoint stream_snapshots (clock : nat → Z) (request : CompletionCreateParams)
    (request_id : pystr) (tok : tokenizer)
    (result_generator : list RequestOutput) (st : stream_state)
  : list dumped * result stream_state :=
  match result_generator with
  | [] => ([], Ok st)
  | res :: rest =>
      match stream_outputs clock request request_id tok (outputs res) st with
      | (chunks, Raise e) => (chunks, Raise e)
      | (chunks, Ok st') =>
          let '(more, r) :=
            stream_snapshots clock request request_id tok rest st' in
          (chunks ++ more, r)
      end
  end.

Definition initial_stream_state (request : CompletionCreateParams)
  : stream_state :=
  mkStreamState (replicate (Z.to_nat (req_n request)) [])
    (replicate (Z.to_nat (req_n request)) 0%nat) 0.

(** The generator pulled to its end: every chunk it yields, in order, and the
    exception that stopped it, if one did. [clock k] is what the [k]-th read
    of [int(time.time())] returns. *)
Definition generate_completion_stream_generator (clock : nat → Z)
    (result_generator : list RequestOutput) (request : CompletionCreateParams)
    (request_id : pystr) (tok : tokenizer) : list dumped * option pyexn :=
  match stream_snapshots clock request request_id tok result_generator
          (initial_stream_state request) with
  | (chunks, Ok _) => (chunks, None)
  | (chunks, Raise e) => (chunks, Some e)
  end.

(** ** The endpoint *)

(** What the endpoint does to its collaborators, in order. *)
Inductive event :=
| GetModelInputs
| HandleRequest
| EngineGenerate (request_id : pystr)
| NextSnapshot
| IsDisconnected (answer : bool)
| EngineAbort (request_id : pystr).

(** The body of an error response built by [get_model_inputs]. *)
Definition JSONResponse := pystr.

(** The collaborators of the endpoint, none of them in this module. *)
Record environment := mkEnvironment {
  token_hex : pystr;
  clock : nat → Z;
  get_model_inputs : CompletionCreateParams → list Z * option JSONResponse;
  handle_request : CompletionCreateParams → CompletionCreateParams * list Z;
  sampling_params_error : CompletionCreateParams → list Z → option pystr;
  engine_tokenizer : tokenizer;
  engine_generate :
    option pystr → CompletionCreateParams → list Z → pystr → list Z →
    list RequestOutput;
  is_disconnected : nat → bool;
}.

(** The log of events and the number of disconnect polls so far. *)
Record world := mkWorld {
  trace : list event;
  polls : nat;
}.

Definition initial_world : world := mkWorld [] 0.

Definition M (A : Type) : Type := world → result A * world.

Definition ret {A} (a : A) : M A := λ w, (Ok a, w).

Definition raise {A} (e : pyexn) : M A := λ w, (Raise e, w).

Definition bind {A B} (m : M A) (k : A → M B) : M B :=
  λ w, match m w with
       | (Ok a, w') => k a w'
       | (Raise e, w') => (Raise e, w')
       end.

Definition lift {A} (r : result A) : M A := λ w, (r, w).

Definition emit (e : event) : M unit :=
  λ w, (Ok (), mkWorld (trace w ++ [e]) (polls w)).

(** [await raw_request.is_disconnected()] *)
Definition poll (env : environment) : M bool :=
  λ w, let answer := is_disconnected env (polls w) in
       (Ok answer, mkWorld (trace w ++ [IsDisconnected answer]) (S (polls w))).

Declare Scope M_scope.
Delimit Scope M_scope with M.
Notation "'let!' x ':=' c 'in' k" := (bind c (λ x, k))
  (at level 10, x name, c at level 200, k at level 200, only parsing)
  : M_scope.

(** What the endpoint hands back to the framework. *)
Inductive response :=
| ErrorReturn (r : JSONResponse)
| EventSource (chunks : list dumped * option pyexn)
| NoResponse
| Final (c : Completion).

(** [async for res in result_generator] of the non-streaming path; [None] is
    the early [return], [Some final_res] the end of the loop. *)
Fixpoint consume_snapshots (env : environment) (request_id : pystr)
    (result_generator : list RequestOutput) (final_res : option RequestOutput)
  : M (option (option RequestOutput)) :=
  match result_generator with
  | [] => ret (Some final_res)
  | res :: rest =>
      (let! _ := emit NextSnapshot in
       let! disconnected := poll env in
       if disconnected : bool then
         let! _ := emit (EngineAbort request_id) in
         ret None
       else consume_snapshots env request_id rest (Some res))%M
  end.

(** [for output in final_res.outputs], appending to [choices]. *)
Fixpoint final_choices (tok : tokenizer) (request : CompletionCreateParams)
    (outs : list CompletionOutput) (choices : list CompletionChoice)
  : result (list CompletionChoice) :=
  match outs with
  | [] => Ok choices
  | output :: outs' =>
      (let output_text := strip_replacement (text output) in
       let! lp :=
         match req_logprobs request with
         | Some _ =>
             result_map Some
               (create_logprobs tok (token_ids output) (logprobs output) 0)
         | None => Ok None
         end in
       final_choices tok request outs'
         (choices ++
          [mkCompletionChoice (index output) output_text
             (finish_reason output) lp]))%result
  end.

(** [sum(len(output.token_ids) for output in final_res.outputs)] *)
Definition num_generated_tokens (final_res : RequestOutput) : Z :=
  fold_left Z.add
    (map (λ output, Z.of_nat (length (token_ids output))) (outputs final_res))
    0.

(** From [assert final_res is not None] to the final [return]. *)
Definition final_response (tok : tokenizer) (request : CompletionCreateParams)
    (request_id : pystr) (now : Z) (final_res : option RequestOutput)
  : result Completion :=
  match final_res with
  | None => Raise AssertionError
  | Some final_res =>
      (let! choices := final_choices tok request (outputs final_res) [] in
       let num_prompt_tokens := Z.of_nat (length (prompt_token_ids final_res)) in
       let num_generated_tokens := num_generated_tokens final_res in
       let usage :=
         mkCompletionUsage num_prompt_tokens num_generated_tokens
           (num_prompt_tokens + num_generated_tokens) in
       Ok (mkCompletion request_id choices now (req_model request)
             (py "text_completion") (Some usage)))%result
  end.

(** The non-streaming path of [create_completion]. *)
Definition non_streaming_response (env : environment)
    (request : CompletionCreateParams) (request_id : pystr)
    (result_generator : list RequestOutput) : M response :=
  (let! consumed := consume_snapshots env request_id result_generator None in
   match consumed with
   | None => ret NoResponse
   | Some final_res =>
       let! c := lift (final_response (engine_tokenizer env) request request_id
                    (clock env 0) final_res) in
       ret (Final c)
   end)%M.

(** Python truth of an optional flag and of an optional string. *)
Definition truthy_flag (b : option bool) : bool :=
  match b with
  | Some true => true
  | _ => false
  end.

Definition truthy_str (s : option pystr) : bool :=
  match s with
  | Some (_ :: _) => true
  | _ => false
  end.

(** [request.max_tokens or 128] *)
Definition max_tokens_or_default (max_tokens : option Z) : Z :=
  match max_tokens with
  | Some m => if decide (m = 0) then 128 else m
  | None => 128
  end.

Definition set_max_tokens (request : CompletionCreateParams) (m : Z)
  : CompletionCreateParams :=
  mkCompletionCreateParams (req_echo request) (req_suffix request) (Some m)
    (req_prompt request) (req_n request) (req_stream request)
    (req_logprobs request) (req_model request).

(** [request.prompt if isinstance(request.prompt, str) else None] *)
Definition prompt_if_str (p : prompt_t) : option pystr :=
  match p with
  | PromptStr s => Some s
  | _ => None
  end.

Definition create_completion (env : environment)
    (request : CompletionCreateParams) : M response :=
  if truthy_flag (req_echo request) then
    raise (HTTPException 400 (py "echo is not currently supported"))
  else if truthy_str (req_suffix request) then
    raise (HTTPException 400 (py "suffix is not currently supported"))
  else
    (let request :=
       set_max_tokens request (max_tokens_or_default (req_max_tokens request)) in
     let request_id := py "cmpl-" ++ token_hex env in
     let! _ := emit GetModelInputs in
     let '(token_ids, error_check_ret) := get_model_inputs env request in
     match error_check_ret with
     | Some r => ret (ErrorReturn r)
     | None =>
         let! _ := emit HandleRequest in
         let '(request, stop_token_ids) := handle_request env request in
         match sampling_params_error env request stop_token_ids with
         | Some e => raise (HTTPException 400 e)
         | None =>
             let! _ := emit (EngineGenerate request_id) in
             let result_generator :=
               engine_generate env (prompt_if_str (req_prompt request))
                 request stop_token_ids request_id token_ids in
             if truthy_flag (req_stream request) then
               ret (EventSource
                      (generate_completion_stream_generator (clock env)
                         result_generator request request_id
                         (engine_tokenizer env)))
             else
               non_streaming_response env request request_id result_generator
         end
     end)%M.

(** ** Vocabulary of the statements *)

(** The chosen token of a zipped pair is among the pair's candidates. *)
Definition chosen_present (p : Z * Dict.t Z float) : Prop :=
  is_Some (Dict.get p.1 p.2).

(** Offsets of consecutive tokens, the first one at [start]. *)
Fixpoint offsets_from (start : Z) (toks : list pystr) : list Z :=
  match toks with
  | [] => []
  | t :: toks' => start :: offsets_from (start + Z.of_nat (length t)) toks'
  end.

(** The offset the loop of [create_logprobs] appends next. *)
Definition next_offset (initial_text_offset : Z) (lp : Logprobs)
    (last_token_len : Z) : Z :=
  match last (text_offset lp) with
  | None => initial_text_offset
  | Some prev => prev + last_token_len
  end.

(** Every output the generator meets, in the order it meets them. *)
Definition all_outputs (snapshots : list RequestOutput)
  : list CompletionOutput :=
  concat (map outputs snapshots).

Definition outputs_of (i : nat) (outs : list CompletionOutput)
  : list CompletionOutput :=
  filter (λ o, index o = i) outs.

(** The cumulative texts of choice [i], stripped, snapshot after snapshot. *)
Definition observations (i : nat) (snapshots : list RequestOutput)
  : list pystr :=
  map (λ o, strip_replacement (text o)) (outputs_of i (all_outputs snapshots)).

(** Each text extends the one before it. *)
Definition growing (texts : list pystr) : Prop :=
  ∀ (k : nat) earlier later,
    texts !! k = Some earlier → texts !! S k = Some later →
    earlier `prefix_of` later.

(** The stripped text and the token count of the latest output of choice [i]
    among [seen], or the initial values. *)
Definition last_text (i : nat) (seen : list CompletionOutput) : pystr :=
  default [] (last (map (λ o, strip_replacement (text o)) (outputs_of i seen))).

Definition last_num_tokens (i : nat) (seen : list CompletionOutput) : nat :=
  default 0%nat (last (map (λ o, length (token_ids o)) (outputs_of i seen))).

(** The choices of index [i] that a chunk carries. *)
Definition chunk_choices (i : nat) (d : dumped) : list CompletionChoice :=
  filter (λ c, choice_index c = i) (choices (dump_chunk d)).

(** The [delta_text]s of the content chunks of choice [i]: the chunks
    dumped without [exclude_none]; and their concatenation. *)
Definition delta_texts (i : nat) (msgs : list dumped) : list pystr :=
  map choice_text
    (concat (map (chunk_choices i)
               (filter (λ d, dump_exclude_none d = false) msgs))).

Definition streamed_text (i : nat) (msgs : list dumped) : pystr :=
  concat (delta_texts i msgs).



(** The logprobs argument of the content chunk, from the values the two
    lists hold for the choice before the update. *)
Definition delta_logprobs (tok : tokenizer) (request : CompletionCreateParams)
    (output : CompletionOutput) (previous_text : pystr) (previous_num : nat)
  : result (option Logprobs) :=
  match req_logprobs request with
  | Some _ =>
      result_map Some
        (create_logprobs tok
           (drop previous_num (token_ids output))
           (drop previous_num (logprobs output))
           (Z.of_nat (length previous_text)))
  | None => Ok None
  end.

(** The logprobs argument of the terminal chunk. *)
Definition terminal_logprobs (request : CompletionCreateParams)
  : option Logprobs :=
  match req_logprobs request with
  | Some _ => Some empty_logprobs
  | None => None
  end.

(** How an entry of the final response relates to the output it is built
    from. *)
Definition final_choice_of (tok : tokenizer) (request : CompletionCreateParams)
    (o : CompletionOutput) (c : CompletionChoice) : Prop :=
  choice_index c = index o ∧
  choice_text c = strip_replacement (text o) ∧
  choice_finish_reason c = finish_reason o ∧
  match req_logprobs request with
  | Some _ =>
      ∃ lp, create_logprobs tok (token_ids o) (logprobs o) 0 = Ok lp ∧
            choice_logprobs c = Some lp
  | None => choice_logprobs c = None
  end.

(** A content chunk of an output: dumped with its [None] fields, no usage,
    and one choice, of the output's index, with the placeholder finish
    reason. *)
Definition content_chunk_of (o : CompletionOutput) (d : dumped) : Prop :=
  dump_exclude_none d = false ∧
  usage (dump_chunk d) = None ∧
  ∃ delta_text lp,
    choices (dump_chunk d) =
      [mkCompletionChoice (index o) delta_text (Some (py "stop")) lp].

(** The terminal chunk that goes with a content chunk: dumped without its
    [None] fields, the same choice index and delta text, and for logprobs the
    empty record when the request asks for logprobs, [None] when not. *)
Definition terminal_chunk_of (request : CompletionCreateParams)
    (content terminal : dumped) : Prop :=
  dump_exclude_none terminal = true ∧
  ∃ i delta_text lp,
    choices (dump_chunk content) =
      [mkCompletionChoice i delta_text (Some (py "stop")) lp] ∧
    choices (dump_chunk terminal) =
      [mkCompletionChoice i delta_text (Some (py "stop"))
         (terminal_logprobs request)].

(** The shape of what the generator yields for a run of outputs: a content
    chunk per output, with a terminal chunk right behind it exactly when the
    output carries a finish reason. *)
Inductive yields (request : CompletionCreateParams)
  : list CompletionOutput → list dumped → Prop :=
| yields_nil : yields request [] []
| yields_content o outs content msgs :
    finish_reason o = None →
    content_chunk_of o content →
    yields request outs msgs →
    yields request (o :: outs) (content :: msgs)
| yields_terminal o outs content terminal msgs :
    finish_reason o ≠ None →
    content_chunk_of o content →
    terminal_chunk_of request content terminal →
    yields request outs msgs →
    yields request (o :: outs) (content :: terminal :: msgs).

(** The request ids of the aborts in a log of events. *)
Definition aborts (events : list event) : list pystr :=
  omap (λ e, match e with EngineAbort request_id => Some request_id | _ => None end)
    events.

(** The snapshots pulled from the engine in a log of events. *)
Definition pulls (events : list event) : nat :=
  length (omap (λ e, match e with NextSnapshot => Some () | _ => None end)
            events).

(** The engine's contract on logprobs: every chosen token of an output is
    among the candidates of its position. *)
Definition candidates_cover (o : CompletionOutput) : Prop :=
  Forall chosen_present (zip (token_ids o) (logprobs o)).

(** The text every token of a list displays as, end to end. *)
Definition display_length (tok : tokenizer) (token_ids : list Z) : Z :=
  Z.of_nat (length (concat (map tok token_ids))).

(** Two records, one after the other. *)
Definition append_logprobs (r1 r2 : Logprobs) : Logprobs :=
  mkLogprobs (text_offset r1 ++ text_offset r2)
    (token_logprobs r1 ++ token_logprobs r2)
    (tokens r1 ++ tokens r2)
    (top_logprobs r1 ++ top_logprobs r2).

(** The choice indices of the content chunks, in the order of the chunks. *)
Definition content_indices (msgs : list dumped) : list nat :=
  concat (map (λ d, map choice_index (choices (dump_chunk d)))
            (filter (λ d, dump_exclude_none d = false) msgs)).

(** A text without U+FFFD. *)
Definition clean (text : pystr) : Prop := REPLACEMENT_CHARACTER ∉ text.

(** The request ids of the generations started, and the number of polls of
    the transport, in a log of events. *)
Definition generations (events : list event) : list pystr :=
  omap (λ e, match e with EngineGenerate request_id => Some request_id | _ => None end)
    events.

Definition polled (events : list event) : nat :=
  length (omap (λ e, match e with IsDisconnected _ => Some () | _ => None end)
            events).

(** The pieces of a run of the endpoint: the id it draws, the request after
    the default for [max_tokens] and after [handle_request], the token ids
    and stop token ids it gets, and the snapshots of the generation it
    starts. *)
Definition endpoint_request_id (env : environment) : pystr :=
  py "cmpl-" ++ token_hex env.

Definition prepared (request : CompletionCreateParams)
  : CompletionCreateParams :=
  set_max_tokens request (max_tokens_or_default (req_max_tokens request)).

Definition handled (env : environment) (request : CompletionCreateParams)
  : CompletionCreateParams :=
  (handle_request env (prepared request)).1.

Definition endpoint_snapshots (env : environment)
    (request : CompletionCreateParams) : list RequestOutput :=
  engine_generate env (prompt_if_str (req_prompt (handled env request)))
    (handled env request) (handle_request env (prepared request)).2
    (endpoint_request_id env) (get_model_inputs env (prepared request)).1.

(** A request turned down: an [HTTPException] raised, or the error response
    of [get_model_inputs] returned. *)
Definition refused (r : result response) : Prop :=
  match r with
  | Raise (HTTPException _ _) => True
  | Ok (ErrorReturn _) => True
  | _ => False
  end.

(** Each list extends the one before it. *)
Definition extending {A} (lists : list (list A)) : Prop :=
  ∀ (k : nat) earlier later,
    lists !! k = Some earlier → lists !! S k = Some later →
    earlier `prefix_of` later.

(** The token texts in the logprobs of the content chunks of choice [i], end
    to end. *)
Definition streamed_tokens (i : nat) (msgs : list dumped) : list pystr :=
  concat
    (map (λ c, match choice_logprobs c with
               | Some lp => tokens lp
               | None => []
               end)
       (concat (map (chunk_choices i)
                  (filter (λ d, dump_exclude_none d = false) msgs)))).

End completion.

Arguments Logprobs : clear implicits.
Arguments CompletionOutput : clear implicits.
Arguments RequestOutput : clear implicits.
Arguments CompletionChoice : clear implicits.
Arguments Completion : clear implicits.
Arguments json : clear implicits.
Arguments dumped : clear implicits.
Arguments environment : clear implicits.
Arguments response : clear implicits.
Arguments M : clear implicits.

(** * Example data

    The scenarios the properties are exercised on. Log-probabilities stand as
    integers here: the code only copies them. *)

Module Examples.

Definition tok : tokenizer :=
  λ token_id,
    if decide (token_id = 1) then py "Hello"
    else if decide (token_id = 2) then py ","
    else if decide (token_id = 3) then py " world!"
    else py "?".

Definition request (n : Z) (logprobs : option Z) : CompletionCreateParams :=
  mkCompletionCreateParams None None None (PromptStr (py "Hello")) n None
    logprobs (py "demo").

Definition echo_request : CompletionCreateParams :=
  mkCompletionCreateParams (Some true) None None (PromptStr (py "Hello")) 1
    None None (py "demo").

Definition request_id : pystr := py "cmpl-0123456789abcdef01234567".

Definition clock : nat → Z := λ k, 1700000000 + Z.of_nat k.

(** The candidates of a position: the chosen token and one more. *)
Definition candidates (token_id : Z) : Dict.t Z Z :=
  [(token_id, -1); (9, -5)].

(** One choice, two snapshots: "Hello," and then "Hello, world!", finished. *)
Definition first : RequestOutput Z :=
  mkRequestOutput [1]
    [mkCompletionOutput 0 (py "Hello,") [1; 2] [candidates 1; candidates 2]
       None].

Definition second : RequestOutput Z :=
  mkRequestOutput [1]
    [mkCompletionOutput 0 (py "Hello, world!") [1; 2; 3]
       [candidates 1; candidates 2; candidates 3] (Some (py "stop"))].

(** The generator's variables after the first snapshot. *)
Definition after_first : stream_state :=
  mkStreamState [py "Hello,"] [2%nat] 1.

(** The record the builder returns for the three tokens from offset 7. *)
Definition three_tokens : Logprobs Z :=
  mkLogprobs [7; 12; 13] [-1; -1; -1] [py "Hello"; py ","; py " world!"]
    [ [(py "Hello", -1); (py "?", -5)];
      [(py ",", -1); (py "?", -5)];
      [(py " world!", -1); (py "?", -5)] ].

(** Two choices: choice 0 finishes in the first snapshot and is reported
    again, still finished, while choice 1 goes on. *)
Definition early_finish : list (RequestOutput Z) :=
  [ mkRequestOutput [1]
      [ mkCompletionOutput 0 (py "a") [1] [candidates 1] (Some (py "stop"));
        mkCompletionOutput 1 (py "b") [2] [candidates 2] None ];
    mkRequestOutput [1]
      [ mkCompletionOutput 0 (py "a") [1] [candidates 1] (Some (py "stop"));
        mkCompletionOutput 1 (py "bc") [2; 3] [candidates 2; candidates 3]
          (Some (py "length")) ] ].

(** The collaborators: an engine that yields [snapshots], and a transport
    that reports the client gone from poll [disconnect_at] on. *)
Definition env (snapshots : list (RequestOutput Z))
    (disconnect_at : option nat) : environment Z :=
  mkEnvironment (py "0123456789abcdef01234567") clock
    (λ _, ([1], None)) (λ r, (r, [])) (λ _ _, None) tok
    (λ _ _ _ _ _, snapshots)
    (λ k, match disconnect_at with
          | Some d => bool_decide (d ≤ k)%nat
          | None => false
          end).

(** The final response to the finished snapshot alone. *)
Definition final : Completion Z :=
  mkCompletion request_id
    [mkCompletionChoice 0 (py "Hello, world!") (Some (py "stop")) None]
    1700000000 (py "demo") (py "text_completion")
    (Some (mkCompletionUsage 1 3 4)).

(** The same request, streamed. *)
Definition stream_request : CompletionCreateParams :=
  mkCompletionCreateParams None None None (PromptStr (py "Hello")) 1
    (Some true) None (py "demo").

(** Collaborators whose [SamplingParams] refuses a request for no choice. *)
Definition strict_env : environment Z :=
  mkEnvironment (py "0123456789abcdef01234567") clock
    (λ _, ([1], None)) (λ r, (r, []))
    (λ r _, if decide (req_n r < 1) then Some (py "n must be at least 1")
            else None)
    tok (λ _ _ _ _ _, [second]) (λ _, false).


(** The endpoint on a client that is gone at the second poll, and on the
    streamed request. *)
Definition disconnect_run : result (response Z) * world :=
  create_completion (env [first; second] (Some 1%nat)) (request 1 None)
    initial_world.

Definition stream_run : result (response Z) * world :=
  create_completion (env [first; second] None) stream_request initial_world.

End Examples.

(** * Properties *)

Section properties.
Context {float : Type}.

(** ** The logprobs builder *)

Lemma logprobs_loop_ok tok base (pairs : list (Z * Dict.t Z float))
    (lp : Logprobs float) ltl :
  Forall chosen_present pairs →
  logprobs_loop tok base pairs lp ltl =
    Ok (mkLogprobs
          (text_offset lp ++
           offsets_from (next_offset base lp ltl) (map (λ p, tok p.1) pairs))
          (token_logprobs lp ++ omap (λ p, Dict.get p.1 p.2) pairs)
          (tokens lp ++ map (λ p, tok p.1) pairs)
          (top_logprobs lp ++ map (λ p, top_candidates tok p.2) pairs)).
Proof.
  intros Hall. revert lp ltl.
  induction Hall as [|[token_id id_logprob] pairs [chosen Hchosen] _ IH];
    intros lp ltl.
  - simpl. rewrite !app_nil_r. by destruct lp.
  - simpl in Hchosen. cbn [logprobs_loop]. rewrite Hchosen.
    rewrite IH. cbn [text_offset token_logprobs tokens top_logprobs].
    f_equal. f_equal.
    + unfold next_offset. cbn [text_offset].
      destruct (last (text_offset lp)) as [prev|];
        rewrite last_snoc, <- app_assoc; reflexivity.
    + simpl. rewrite Hchosen. by rewrite <- app_assoc.
    + by rewrite <- app_assoc.
    + by rewrite <- app_assoc.
Qed.

Lemma logprobs_loop_raise tok base seen token_id
    (id_logprob : Dict.t Z float) rest (lp : Logprobs float) ltl :
  Forall chosen_present seen →
  Dict.get token_id id_logprob = None →
  logprobs_loop tok base (seen ++ (token_id, id_logprob) :: rest) lp ltl =
    Raise (KeyError token_id).
Proof.
  intros Hall Hnone. revert lp ltl.
  induction Hall as [|[t d] seen [chosen Hchosen] _ IH]; intros lp ltl.
  - simpl. by rewrite Hnone.
  - simpl in Hchosen. simpl. rewrite Hchosen. apply IH.
Qed.

(** The loop either meets a pair whose chosen token is missing, the first of
    them raising, or none. *)
Lemma chosen_present_split (pairs : list (Z * Dict.t Z float)) :
  Forall chosen_present pairs ∨
  ∃ seen token_id id_logprob rest,
    pairs = seen ++ (token_id, id_logprob) :: rest ∧
    Forall chosen_present seen ∧
    Dict.get token_id id_logprob = None.
Proof.
  induction pairs as [|[t d] pairs IH].
  - left. constructor.
  - destruct (Dict.get t d) as [v|] eqn:Hget.
    + destruct IH as [IH|(seen & t' & d' & rest & -> & Hseen & Hnone)].
      * left. constructor; [by exists v | done].
      * right. exists ((t, d) :: seen), t', d', rest.
        split; [done|]. split; [|done].
        constructor; [by exists v | done].
    + right. exists [], t, d, pairs. by repeat split.
Qed.

Lemma logprobs_loop_Ok_inv tok base pairs lp ltl (r : Logprobs float) :
  logprobs_loop tok base pairs lp ltl = Ok r → Forall chosen_present pairs.
Proof.
  intros Hr.
  destruct (chosen_present_split pairs)
    as [H|(seen & t & d & rest & -> & Hseen & Hnone)]; [done|].
  by rewrite (logprobs_loop_raise _ _ _ _ _ _ _ _ Hseen Hnone) in Hr.
Qed.

Lemma create_logprobs_Ok tok token_ids id_logprobs base (r : Logprobs float) :
  create_logprobs tok token_ids id_logprobs base = Ok r →
  Forall chosen_present (zip token_ids id_logprobs) ∧
  r = mkLogprobs
        (offsets_from base (map (λ p, tok p.1) (zip token_ids id_logprobs)))
        (omap (λ p, Dict.get p.1 p.2) (zip token_ids id_logprobs))
        (map (λ p, tok p.1) (zip token_ids id_logprobs))
        (map (λ p, top_candidates tok p.2) (zip token_ids id_logprobs)).
Proof.
  unfold create_logprobs. intros Hr.
  pose proof (logprobs_loop_Ok_inv _ _ _ _ _ _ Hr) as Hall.
  split; [done|].
  rewrite (logprobs_loop_ok _ _ _ _ _ Hall) in Hr.
  by injection Hr as <-.
Qed.

Lemma length_offsets_from start toks :
  length (offsets_from start toks) = length toks.
Proof. revert start. induction toks; intros; simpl; by f_equal. Qed.

Lemma offsets_from_step start toks i prev cur :
  offsets_from start toks !! i = Some prev →
  offsets_from start toks !! S i = Some cur →
  ∃ t, toks !! i = Some t ∧ cur = prev + Z.of_nat (length t).
Proof.
  revert start i. induction toks as [|t toks IH]; intros start i; [done|].
  destruct i as [|i]; simpl.
  - intros [= <-]. destruct toks; [done|]. simpl. intros [= <-]. by exists t.
  - apply IH.
Qed.

Lemma omap_chosen_lookup (pairs : list (Z * Dict.t Z float)) i p :
  Forall chosen_present pairs →
  pairs !! i = Some p →
  omap (λ p, Dict.get p.1 p.2) pairs !! i = Dict.get p.1 p.2.
Proof.
  intros Hall. revert i. induction Hall as [|q pairs [v Hv] _ IH]; [done|].
  intros [|i]; simpl; rewrite Hv; simpl.
  - by intros [= <-].
  - apply IH.
Qed.

Lemma length_omap_chosen (pairs : list (Z * Dict.t Z float)) :
  Forall chosen_present pairs →
  length (omap (λ p, Dict.get p.1 p.2) pairs) = length pairs.
Proof.
  induction 1 as [|q pairs [v Hv] _ IH]; [done|].
  simpl. rewrite Hv. simpl. by f_equal.
Qed.

Lemma zip_paired_prefix {A B} (l : list A) (k : list B) :
  zip (take (Nat.min (length l) (length k)) l)
      (take (Nat.min (length l) (length k)) k)
  = zip l k.
Proof.
  revert k. induction l as [|x l IH]; intros [|y k]; simpl; try done.
  by rewrite IH.
Qed.

Lemma lookup_zip_pair {A B} (l : list A) (k : list B) i x y :
  l !! i = Some x → k !! i = Some y → zip l k !! i = Some (x, y).
Proof. intros Hx Hy. apply lookup_zip_with_Some. by exists x, y. Qed.

(** C4. Whenever the builder returns a record for token ids and candidate
    maps of the same length, the record has one offset per token, the first
    offset is the caller's base offset, and each later offset exceeds the one
    before it by the length of the display text of the token before it. *)
Theorem create_logprobs_text_offset tok token_ids id_logprobs base
    (r : Logprobs float) :
  length token_ids = length id_logprobs →
  create_logprobs tok token_ids id_logprobs base = Ok r →
  length (text_offset r) = length token_ids ∧
  text_offset r !! 0%nat = (λ _, base) <$> token_ids !! 0%nat ∧
  ∀ i : nat, (S i < length token_ids)%nat →
    ∃ prev cur token_id,
      text_offset r !! i = Some prev ∧
      text_offset r !! S i = Some cur ∧
      token_ids !! i = Some token_id ∧
      tokens r !! i = Some (tok token_id) ∧
      cur - prev = Z.of_nat (length (tok token_id)).
Proof.
  intros Hlen Hr. apply create_logprobs_Ok in Hr as [_ ->].
  cbn [text_offset tokens].
  assert (map (λ p : Z * Dict.t Z float, tok p.1) (zip token_ids id_logprobs)
          = map tok token_ids) as ->.
  { rewrite <- (fst_zip token_ids id_logprobs) at 2 by lia.
    by rewrite map_map. }
  split; [by rewrite length_offsets_from, length_map|].
  split; [by destruct token_ids|].
  intros i Hi.
  destruct (lookup_lt_is_Some_2 (offsets_from base (map tok token_ids)) i)
    as [prev Hprev]; [rewrite length_offsets_from, length_map; lia|].
  destruct (lookup_lt_is_Some_2 (offsets_from base (map tok token_ids)) (S i))
    as [cur Hcur]; [by rewrite length_offsets_from, length_map|].
  destruct (offsets_from_step _ _ _ _ _ Hprev Hcur) as (t & Ht & ->).
  rewrite list_lookup_fmap in Ht.
  destruct (token_ids !! i) as [token_id|] eqn:Hid; [|done].
  injection Ht as <-.
  exists prev, (prev + Z.of_nat (length (tok token_id))), token_id.
  repeat split; try done.
  - by rewrite list_lookup_fmap, Hid.
  - lia.
Qed.

(** C5, as the code has it. At a position where the chosen token is among
    its own candidates, a returned record carries that candidate's
    log-probability at the same position. Where it is not, the builder
    returns no record: the dictionary lookup of the first such position
    raises Python's own [KeyError] for the token id. *)
Theorem create_logprobs_chosen_logprob tok token_ids id_logprobs base
    (i : nat) token_id (id_logprob : Dict.t Z float) :
  token_ids !! i = Some token_id →
  id_logprobs !! i = Some id_logprob →
  match Dict.get token_id id_logprob with
  | Some chosen =>
      ∀ r, create_logprobs tok token_ids id_logprobs base = Ok r →
           token_logprobs r !! i = Some chosen
  | None =>
      ∃ (j : nat) missing_id candidates,
        (j ≤ i)%nat ∧
        token_ids !! j = Some missing_id ∧
        id_logprobs !! j = Some candidates ∧
        Dict.get missing_id candidates = None ∧
        create_logprobs tok token_ids id_logprobs base
          = Raise (KeyError missing_id) ∧
        exn_class (KeyError missing_id) = "KeyError"
  end.
Proof.
  intros Hid Hmap.
  pose proof (lookup_zip_pair _ _ _ _ _ Hid Hmap) as Hpair.
  destruct (Dict.get token_id id_logprob) as [chosen|] eqn:Hget.
  - intros r Hr. apply create_logprobs_Ok in Hr as [Hall ->].
    cbn [token_logprobs].
    by rewrite (omap_chosen_lookup _ _ _ Hall Hpair).
  - destruct (chosen_present_split (zip token_ids id_logprobs))
      as [Hall|(seen & t & d & rest & Hzip & Hseen & Hnone)].
    + rewrite Forall_lookup in Hall. destruct (Hall _ _ Hpair) as [v Hv].
      simpl in Hv. congruence.
    + assert (zip token_ids id_logprobs !! length seen = Some (t, d)) as Hj.
      { rewrite Hzip. by rewrite list_lookup_middle. }
      apply lookup_zip_with_Some in Hj as (t' & d' & [= <- <-] & Ht & Hd).
      exists (length seen), t, d. repeat split; try done.
      * destruct (decide (length seen ≤ i)%nat) as [|Hlt]; [done|].
        rewrite Forall_lookup in Hseen.
        assert (seen !! i = Some (token_id, id_logprob)) as Hin.
        { rewrite Hzip in Hpair. rewrite lookup_app_l in Hpair by lia. done. }
        destruct (Hseen _ _ Hin) as [v Hv]. simpl in Hv. congruence.
      * unfold create_logprobs. rewrite Hzip.
        by apply logprobs_loop_raise.
Qed.

(** C9. On empty inputs the builder returns the record whose four sequences
    are empty, whatever the tokenizer and the base offset: it is a function
    of its arguments alone, and reads none of them here. *)
Theorem create_logprobs_empty (tok tok' : tokenizer) (base base' : Z) :
  create_logprobs tok [] [] base = Ok (empty_logprobs (float:=float)) ∧
  create_logprobs tok [] [] base
    = create_logprobs (float:=float) tok' [] [] base' ∧
  text_offset (empty_logprobs (float:=float)) = [] ∧
  token_logprobs (empty_logprobs (float:=float)) = [] ∧
  tokens (empty_logprobs (float:=float)) = [] ∧
  top_logprobs (empty_logprobs (float:=float)) = [].
Proof. by repeat split. Qed.

(** C10. The builder never fails on a length mismatch: it runs over the
    paired prefix of its two sequences and gives what it gives on the two
    sequences cut to the shorter length. It returns a record whenever the
    chosen token of every pair is among the pair's candidates, a returned
    record has four sequences of the shorter length, and the only exception
    it can raise is the [KeyError] of a missing chosen token. *)
Theorem create_logprobs_paired_prefix tok token_ids
    (id_logprobs : list (Dict.t Z float)) base :
  let shorter := Nat.min (length token_ids) (length id_logprobs) in
  create_logprobs tok token_ids id_logprobs base
    = create_logprobs tok (take shorter token_ids) (take shorter id_logprobs)
        base ∧
  match create_logprobs tok token_ids id_logprobs base with
  | Ok r =>
      Forall chosen_present (zip token_ids id_logprobs) ∧
      length (text_offset r) = shorter ∧
      length (token_logprobs r) = shorter ∧
      length (tokens r) = shorter ∧
      length (top_logprobs r) = shorter
  | Raise e =>
      ∃ (j : nat) missing_id candidates,
        (j < shorter)%nat ∧
        token_ids !! j = Some missing_id ∧
        id_logprobs !! j = Some candidates ∧
        Dict.get missing_id candidates = None ∧
        e = KeyError missing_id
  end.
Proof.
  intros shorter. split.
  { unfold create_logprobs, shorter. by rewrite zip_paired_prefix. }
  destruct (chosen_present_split (zip token_ids id_logprobs))
    as [Hall|(seen & t & d & rest & Hzip & Hseen & Hnone)].
  - unfold create_logprobs. rewrite (logprobs_loop_ok _ _ _ _ _ Hall).
    cbn [text_offset token_logprobs tokens top_logprobs empty_logprobs app].
    rewrite length_offsets_from, !length_map, length_omap_chosen by done.
    rewrite length_zip. by repeat split.
  - assert (zip token_ids id_logprobs !! length seen = Some (t, d)) as Hj.
    { rewrite Hzip. by rewrite list_lookup_middle. }
    pose proof (lookup_lt_Some _ _ _ Hj) as Hlt. rewrite length_zip in Hlt.
    apply lookup_zip_with_Some in Hj as (t' & d' & [= <- <-] & Ht & Hd).
    unfold create_logprobs. rewrite Hzip.
    rewrite (logprobs_loop_raise _ _ _ _ _ _ _ _ Hseen Hnone).
    by exists (length seen), t, d.
Qed.

(** ** The streaming generator, one output at a time *)

Lemma list_assign_Ok {A} (l : list A) i x l' :
  list_assign l i x = Ok l' ↔ (i < length l)%nat ∧ l' = <[i:=x]> l.
Proof.
  unfold list_assign. destruct (decide (i < length l)%nat); split.
  - by intros [= <-].
  - by intros [_ ->].
  - done.
  - by intros [? _].
Qed.

Lemma list_item_Ok {A} (l : list A) i x :
  list_item l i = Ok x ↔ l !! i = Some x.
Proof.
  unfold list_item. destruct (l !! i); split; (done || congruence).
Qed.

(** What the loop body does when both lists have an entry for the choice. *)
Lemma stream_output_eq clock request request_id tok st
    (output : CompletionOutput float) pt pn :
  previous_texts st !! index output = Some pt →
  previous_num_tokens st !! index output = Some pn →
  stream_output clock request request_id tok st output =
    match delta_logprobs tok request output pt pn with
    | Raise e => Raise e
    | Ok lp =>
        let delta_text :=
          drop (length pt) (strip_replacement (text output)) in
        let content :=
          mkDumped false
            (stream_chunk request request_id (clock (time_calls st))
               (index output) delta_text lp) in
        let terminal :=
          mkDumped true
            (stream_chunk request request_id (clock (S (time_calls st)))
               (index output) delta_text (terminal_logprobs request)) in
        let previous_texts' :=
          <[index output := strip_replacement (text output)]>
            (previous_texts st) in
        let previous_num_tokens' :=
          <[index output := length (token_ids output)]>
            (previous_num_tokens st) in
        match finish_reason output with
        | Some _ =>
            Ok ([content; terminal],
                mkStreamState previous_texts' previous_num_tokens'
                  (S (S (time_calls st))))
        | None =>
            Ok ([content],
                mkStreamState previous_texts' previous_num_tokens'
                  (S (time_calls st)))
        end
    end.
Proof.
  intros Hpt Hpn. unfold stream_output, delta_logprobs, terminal_logprobs.
  pose proof (lookup_lt_Some _ _ _ Hpt) as Hlt.
  pose proof (lookup_lt_Some _ _ _ Hpn) as Hln.
  unfold list_item, list_assign. rewrite Hpt. cbn [result_bind].
  rewrite !decide_True by done.
  destruct (req_logprobs request) as [k|]; cbn [result_bind].
  - rewrite Hpn. cbn [result_bind].
    destruct (create_logprobs _ _ _ _) as [lp|e]; [|done].
    cbn [result_map result_bind]. by destruct (finish_reason output).
  - by destruct (finish_reason output).
Qed.

(** The body only gets through when both lists have an entry. *)
Lemma stream_output_Ok_lookup clock request request_id tok st
    (output : CompletionOutput float) res :
  stream_output clock request request_id tok st output = Ok res →
  ∃ pt pn,
    previous_texts st !! index output = Some pt ∧
    previous_num_tokens st !! index output = Some pn.
Proof.
  unfold stream_output. intros H.
  destruct (list_item (previous_texts st) (index output)) as [pt|] eqn:Hpt;
    [|done].
  apply list_item_Ok in Hpt. exists pt. cbn [result_bind] in H.
  destruct (previous_num_tokens st !! index output) as [pn|] eqn:Hpn;
    [by exists pn|].
  exfalso. apply lookup_ge_None in Hpn.
  destruct (match req_logprobs request with Some _ => _ | None => _ end);
    [|done].
  cbn [result_bind] in H.
  destruct (list_assign (previous_texts st) _ _); [|done].
  cbn [result_bind] in H.
  destruct (list_assign (previous_num_tokens st) _ _) as [l|] eqn:Hl; [|done].
  apply list_assign_Ok in Hl as [Hl _]. lia.
Qed.

(** The two loops are one loop over all the outputs. *)
Lemma stream_outputs_app clock request request_id tok
    (outs1 outs2 : list (CompletionOutput float)) st :
  stream_outputs clock request request_id tok (outs1 ++ outs2) st =
    match stream_outputs clock request request_id tok outs1 st with
    | (chunks, Raise e) => (chunks, Raise e)
    | (chunks, Ok st') =>
        let '(more, r) :=
          stream_outputs clock request request_id tok outs2 st' in
        (chunks ++ more, r)
    end.
Proof.
  revert st. induction outs1 as [|o outs1 IH]; intros st; simpl.
  - by destruct (stream_outputs _ _ _ _ outs2 st).
  - destruct (stream_output _ _ _ _ st o) as [[chunks st1]|e]; [|done].
    rewrite IH.
    destruct (stream_outputs _ _ _ _ outs1 st1) as [more [st2|e]]; [|done].
    destruct (stream_outputs _ _ _ _ outs2 st2) as [more' r].
    by rewrite app_assoc.
Qed.

Lemma stream_snapshots_flat clock request request_id tok
    (snapshots : list (RequestOutput float)) st :
  stream_snapshots clock request request_id tok snapshots st =
  stream_outputs clock request request_id tok (all_outputs snapshots) st.
Proof.
  revert st. induction snapshots as [|res rest IH]; intros st; [done|].
  unfold all_outputs. simpl. rewrite stream_outputs_app.
  destruct (stream_outputs _ _ _ _ (outputs res) st) as [chunks [st'|e]];
    [|done].
  by rewrite IH.
Qed.

(** The update of the two lists by a body that gets through. *)
Lemma stream_output_Ok_state clock request request_id tok st
    (output : CompletionOutput float) chunks st' :
  stream_output clock request request_id tok st output = Ok (chunks, st') →
  (index output < length (previous_texts st))%nat ∧
  (index output < length (previous_num_tokens st))%nat ∧
  previous_texts st' =
    <[index output := strip_replacement (text output)]> (previous_texts st) ∧
  previous_num_tokens st' =
    <[index output := length (token_ids output)]> (previous_num_tokens st).
Proof.
  intros H.
  destruct (stream_output_Ok_lookup _ _ _ _ _ _ _ H) as (pt & pn & Hpt & Hpn).
  rewrite (stream_output_eq _ _ _ _ _ _ _ _ Hpt Hpn) in H.
  split; [by eapply lookup_lt_Some|]. split; [by eapply lookup_lt_Some|].
  destruct (delta_logprobs _ _ _ _ _); [|done].
  cbv zeta in H. by destruct (finish_reason output); injection H as <- <-.
Qed.

Lemma outputs_of_cons i (o : CompletionOutput float) outs :
  outputs_of i (o :: outs) =
    if decide (index o = i) then o :: outputs_of i outs else outputs_of i outs.
Proof. unfold outputs_of. by rewrite filter_cons. Qed.

(** After any number of outputs, each list holds for a choice what the latest
    output of that choice left there. *)
Lemma stream_outputs_tracks clock request request_id tok
    (outs : list (CompletionOutput float)) st msgs st' i :
  stream_outputs clock request request_id tok outs st = (msgs, Ok st') →
  previous_texts st' !! i =
    match last (outputs_of i outs) with
    | Some o => Some (strip_replacement (text o))
    | None => previous_texts st !! i
    end ∧
  previous_num_tokens st' !! i =
    match last (outputs_of i outs) with
    | Some o => Some (length (token_ids o))
    | None => previous_num_tokens st !! i
    end.
Proof.
  revert st msgs. induction outs as [|o outs IH]; intros st msgs H.
  - simpl in H. by injection H as <- <-.
  - simpl in H.
    destruct (stream_output _ _ _ _ st o) as [[chunks st1]|e] eqn:Ho; [|done].
    destruct (stream_outputs _ _ _ _ outs st1) as [more r] eqn:Hrest.
    injection H as <- ->.
    destruct (IH _ _ Hrest) as [IHt IHn].
    destruct (stream_output_Ok_state _ _ _ _ _ _ _ _ Ho)
      as (Hlt & Hln & Ht & Hn).
    rewrite IHt, IHn, Ht, Hn, outputs_of_cons.
    destruct (decide (index o = i)) as [<-|Hne].
    + rewrite last_cons. destruct (last (outputs_of (index o) outs)); [done|].
      by rewrite !list_lookup_insert_eq.
    + destruct (last (outputs_of i outs)); [done|].
      by rewrite !list_lookup_insert_ne.
Qed.

Lemma initial_stream_state_lookup request (i : nat) :
  (i < Z.to_nat (req_n request))%nat →
  previous_texts (initial_stream_state request) !! i = Some [] ∧
  previous_num_tokens (initial_stream_state request) !! i = Some 0%nat.
Proof. intros Hi. simpl. by rewrite !lookup_replicate_2. Qed.

(** From the start of the request, the lists hold the latest cumulative
    values of every choice in range. *)
Lemma stream_outputs_latest clock request request_id tok
    (seen : list (CompletionOutput float)) msgs st i :
  stream_outputs clock request request_id tok seen
    (initial_stream_state request) = (msgs, Ok st) →
  (i < Z.to_nat (req_n request))%nat →
  previous_texts st !! i = Some (last_text i seen) ∧
  previous_num_tokens st !! i = Some (last_num_tokens i seen).
Proof.
  intros Hrun Hi.
  destruct (stream_outputs_tracks _ _ _ _ _ _ _ _ i Hrun) as [Ht Hn].
  destruct (initial_stream_state_lookup request i Hi) as [Ht0 Hn0].
  unfold last_text, last_num_tokens.
  rewrite Ht, Hn, !fmap_last.
  by destruct (last (outputs_of i seen)).
Qed.

(** C3. Let [seen] be the outputs the generator has got through since the
    start of the request, and [output] the next one, of a choice in range.
    The two lists then hold for that choice the stripped text and the token
    count of its latest output among [seen]. From these values, before any
    update, the body takes the delta text as the stripped cumulative text
    from position [len(previous_text)] on and builds the logprobs from the
    token ids and candidate maps from position [previous_num_tokens] on with
    base offset [len(previous_text)]. If the builder raises, so does the
    body, and nothing is updated. Otherwise the content chunk carries that
    delta and those logprobs, and the lists afterwards differ from the lists
    before in the entry of this choice alone, now the stripped cumulative
    text and the cumulative token count. *)
Theorem stream_output_delta clock request request_id tok
    (seen : list (CompletionOutput float)) msgs st
    (output : CompletionOutput float) :
  stream_outputs clock request request_id tok seen
    (initial_stream_state request) = (msgs, Ok st) →
  (index output < Z.to_nat (req_n request))%nat →
  let i := index output in
  let previous_text := last_text i seen in
  let previous_num := last_num_tokens i seen in
  let cumulative_text := strip_replacement (text output) in
  previous_texts st !! i = Some previous_text ∧
  previous_num_tokens st !! i = Some previous_num ∧
  match
    match req_logprobs request with
    | Some _ =>
        result_map Some
          (create_logprobs tok
             (drop previous_num (token_ids output))
             (drop previous_num (logprobs output))
             (Z.of_nat (length previous_text)))
    | None => Ok None
    end
  with
  | Raise e =>
      stream_output clock request request_id tok st output = Raise e
  | Ok lp =>
      ∃ chunks st',
        stream_output clock request request_id tok st output
          = Ok (chunks, st') ∧
        head chunks =
          Some (mkDumped false
                  (stream_chunk request request_id (clock (time_calls st)) i
                     (drop (length previous_text) cumulative_text) lp)) ∧
        previous_texts st' = <[i := cumulative_text]> (previous_texts st) ∧
        previous_num_tokens st' =
          <[i := length (token_ids output)]> (previous_num_tokens st) ∧
        previous_texts st' !! i = Some cumulative_text ∧
        previous_num_tokens st' !! i = Some (length (token_ids output))
  end.
Proof.
  intros Hrun Hi i previous_text previous_num cumulative_text.
  destruct (stream_outputs_latest _ _ _ _ _ _ _ _ Hrun Hi) as [Ht Hn].
  split; [done|]. split; [done|].
  pose proof (stream_output_eq clock request request_id tok _ _ _ _ Ht Hn)
    as Heq.
  unfold delta_logprobs in Heq. fold i previous_text previous_num in Heq |- *.
  destruct (match req_logprobs request with Some _ => _ | None => _ end)
    as [lp|e]; [|done].
  cbv zeta in Heq.
  pose proof (lookup_lt_Some _ _ _ Ht) as Hlt.
  pose proof (lookup_lt_Some _ _ _ Hn) as Hln.
  destruct (finish_reason output); eexists _, _;
    (split; [exact Heq|]); cbn [previous_texts previous_num_tokens head];
    fold cumulative_text; by rewrite !list_lookup_insert_eq.
Qed.

(** ** Streamed deltas against the aggregated text *)

Lemma streamed_text_app i (msgs1 msgs2 : list (dumped float)) :
  streamed_text i (msgs1 ++ msgs2)
  = streamed_text i msgs1 ++ streamed_text i msgs2.
Proof.
  unfold streamed_text, delta_texts.
  by rewrite filter_app, map_app, concat_app, map_app, concat_app.
Qed.

(** What the chunks of one output add to the streamed text of a choice. *)
Lemma streamed_text_output clock request request_id tok st
    (output : CompletionOutput float) chunks st' pt i :
  stream_output clock request request_id tok st output = Ok (chunks, st') →
  previous_texts st !! index output = Some pt →
  streamed_text i chunks =
    if decide (index output = i)
    then drop (length pt) (strip_replacement (text output))
    else [].
Proof.
  intros H Hpt.
  destruct (stream_output_Ok_lookup _ _ _ _ _ _ _ H) as (pt' & pn & Hpt' & Hpn).
  assert (pt' = pt) as -> by congruence.
  rewrite (stream_output_eq _ _ _ _ _ _ _ _ Hpt Hpn) in H.
  destruct (delta_logprobs _ _ _ _ _) as [lp|]; [|done].
  cbv zeta in H.
  destruct (finish_reason output); injection H as <- <-;
    unfold streamed_text, delta_texts, chunk_choices; simpl;
    rewrite app_nil_r, filter_cons, filter_nil; simpl;
    destruct (decide (index output = i)); simpl; by rewrite ?app_nil_r.
Qed.

Lemma growing_tail text texts : growing (text :: texts) → growing texts.
Proof. intros H k a b Ha Hb. by apply (H (S k)). Qed.

Lemma growing_head text next texts :
  growing (text :: next :: texts) → text `prefix_of` next.
Proof. intros H. by apply (H 0%nat). Qed.

(** The deltas of a choice add up: what the list held at the start, followed
    by the streamed text, is the latest cumulative text. *)
Lemma stream_outputs_telescope clock request request_id tok
    (outs : list (CompletionOutput float)) st msgs st' i p :
  stream_outputs clock request request_id tok outs st = (msgs, Ok st') →
  previous_texts st !! i = Some p →
  growing (p :: map (λ o, strip_replacement (text o)) (outputs_of i outs)) →
  p ++ streamed_text i msgs =
    default p
      (last (map (λ o, strip_replacement (text o)) (outputs_of i outs))).
Proof.
  revert st msgs p. induction outs as [|o outs IH]; intros st msgs p H Hp Hgrow.
  - simpl in H. injection H as <- <-. simpl. by rewrite app_nil_r.
  - simpl in H.
    destruct (stream_output _ _ _ _ st o) as [[chunks st1]|e] eqn:Ho; [|done].
    destruct (stream_outputs _ _ _ _ outs st1) as [more r] eqn:Hrest.
    injection H as <- ->.
    destruct (stream_output_Ok_lookup _ _ _ _ _ _ _ Ho)
      as (pt & pn & Hpt & Hpn).
    destruct (stream_output_Ok_state _ _ _ _ _ _ _ _ Ho)
      as (Hlt & _ & Ht & _).
    rewrite streamed_text_app, (streamed_text_output _ _ _ _ _ _ _ _ _ i Ho Hpt).
    rewrite outputs_of_cons in Hgrow |- *.
    destruct (decide (index o = i)) as [<-|Hne].
    + assert (pt = p) as -> by congruence.
      cbn [map] in Hgrow |- *.
      destruct (growing_head _ _ _ Hgrow) as [delta Hdelta].
      rewrite Hdelta, drop_app_length, app_assoc, <- Hdelta.
      rewrite (IH st1 more (strip_replacement (text o)) Hrest).
      * rewrite last_cons. by destruct (last _).
      * rewrite Ht. by apply list_lookup_insert_eq.
      * by eapply growing_tail.
    + simpl. apply (IH st1 more p Hrest); [|done].
      rewrite Ht. by rewrite list_lookup_insert_ne.
Qed.

(** A generator that gets to the end has met no choice out of range. *)
Lemma stream_outputs_in_range clock request request_id tok
    (outs : list (CompletionOutput float)) st msgs st' o :
  stream_outputs clock request request_id tok outs st = (msgs, Ok st') →
  o ∈ outs → (index o < length (previous_texts st))%nat.
Proof.
  revert st msgs. induction outs as [|o' outs IH]; intros st msgs H Hin.
  - by apply elem_of_nil in Hin.
  - simpl in H.
    destruct (stream_output _ _ _ _ st o') as [[chunks st1]|e] eqn:Ho; [|done].
    destruct (stream_outputs _ _ _ _ outs st1) as [more r] eqn:Hrest.
    injection H as <- ->.
    destruct (stream_output_Ok_state _ _ _ _ _ _ _ _ Ho)
      as (Hlt & _ & Ht & _).
    apply elem_of_cons in Hin as [->|Hin]; [done|].
    specialize (IH _ _ Hrest Hin). by rewrite Ht, length_insert in IH.
Qed.

(** ** The non-streaming path *)

(** The loop ends with the last snapshot, unless it returns early. *)
Lemma consume_snapshots_result (env : environment float) request_id
    snapshots final_res w r w' :
  consume_snapshots env request_id snapshots final_res w = (r, w') →
  r = Ok None ∨
  r = Ok (Some (match last snapshots with
                | Some res => Some res
                | None => final_res
                end)).
Proof.
  revert final_res w. induction snapshots as [|res rest IH]; intros fr w H.
  - right. simpl in H. by injection H as <- <-.
  - simpl in H. unfold bind, emit, poll, ret in H. simpl in H.
    destruct (is_disconnected env (polls w)).
    + left. by injection H as <- <-.
    + apply IH in H as [->| ->]; [by left|right].
      rewrite last_cons. by destruct (last rest).
Qed.

(** The entries of the final response, one per output and in order. *)
Lemma final_choices_Ok tok request (outs : list (CompletionOutput float))
    acc cs :
  final_choices tok request outs acc = Ok cs →
  ∃ cs', cs = acc ++ cs' ∧ Forall2 (final_choice_of tok request) outs cs'.
Proof.
  revert acc. induction outs as [|o outs IH]; intros acc H.
  - simpl in H. injection H as <-. exists []. by rewrite app_nil_r.
  - simpl in H.
    destruct (match req_logprobs request with Some _ => _ | None => _ end)
      as [lp|e] eqn:Hlp; [|done].
    cbn [result_bind] in H. apply IH in H as (cs' & -> & Hall).
    eexists (_ :: cs'). split; [by rewrite <- app_assoc|].
    constructor; [|done].
    unfold final_choice_of. simpl. repeat split.
    destruct (req_logprobs request); [|by injection Hlp as <-].
    destruct (create_logprobs _ _ _ _) as [lp'|]; [|done].
    injection Hlp as <-. by exists lp'.
Qed.

(** A final response is built from the last snapshot. *)
Lemma non_streaming_response_Final (env : environment float) request
    request_id snapshots w w' c :
  non_streaming_response env request request_id snapshots w
    = (Ok (Final c), w') →
  ∃ final_res,
    last snapshots = Some final_res ∧
    final_response (engine_tokenizer env) request request_id (clock env 0)
      (Some final_res) = Ok c.
Proof.
  unfold non_streaming_response, bind. intros H.
  destruct (consume_snapshots _ _ _ _ _) as [r w1] eqn:Hloop.
  apply consume_snapshots_result in Hloop as [-> | ->]; [done|].
  destruct (last snapshots) as [final_res|]; [|done].
  exists final_res. split; [done|].
  unfold lift, ret in H.
  destruct (final_response _ _ _ _ _); [|done]. by injection H as <- <-.
Qed.

Lemma growing_from_empty texts : growing texts → growing ([] :: texts).
Proof.
  intros H [|k] a b Ha Hb.
  - injection Ha as <-. apply prefix_nil.
  - by apply (H k).
Qed.

Lemma all_outputs_snoc (snapshots : list (RequestOutput float)) final_res :
  all_outputs (snapshots ++ [final_res])
  = all_outputs snapshots ++ outputs final_res.
Proof.
  unfold all_outputs. rewrite map_app, concat_app. simpl.
  by rewrite app_nil_r.
Qed.

(** C1. Take snapshots in which the stripped text of choice [i] only grows,
    each one extending the one before. If the streaming generator runs over
    them to the end, and the non-streaming path returns a final response
    from them, then the delta texts of the content chunks of choice [i],
    concatenated in order, are the text of the entry of choice [i] in the
    final response (its last such entry, should the last snapshot list the
    choice more than once). *)
Theorem streamed_text_is_full_text (env : environment float) clock snapshots
    request request_id tok msgs w w' final i c :
  growing (observations i snapshots) →
  generate_completion_stream_generator clock snapshots request request_id tok
    = (msgs, None) →
  non_streaming_response env request request_id snapshots w
    = (Ok (Final final), w') →
  last (filter (λ c, choice_index c = i) (choices final)) = Some c →
  streamed_text i msgs = choice_text c.
Proof.
  intros Hgrow Hgen Hagg Hc.
  (* the streaming side *)
  unfold generate_completion_stream_generator in Hgen.
  rewrite stream_snapshots_flat in Hgen.
  destruct (stream_outputs _ _ _ _ _ _) as [chunks [st|e]] eqn:Hrun; [|done].
  injection Hgen as ->.
  (* the aggregating side *)
  apply non_streaming_response_Final in Hagg as (final_res & Hlast & Hfinal).
  unfold final_response in Hfinal.
  destruct (final_choices _ _ _ _) as [cs|] eqn:Hcs; [|done].
  cbn [result_bind] in Hfinal. injection Hfinal as <-. cbn [choices] in Hc.
  apply final_choices_Ok in Hcs as (cs' & -> & Hall). rewrite app_nil_l in Hc.
  assert (Forall2 (final_choice_of (engine_tokenizer env) request)
            (outputs_of i (outputs final_res))
            (filter (λ c, choice_index c = i) cs')) as Hfilter.
  { apply Forall2_filter; [|done]. intros o c' (Hi & _). by rewrite Hi. }
  apply Forall2_last in Hfilter. rewrite Hc in Hfilter.
  inversion Hfilter as [o c' (_ & Htext & _) Ho|]; subst c'.
  symmetry in Ho.
  (* the last output of the choice is the one the entry is built from *)
  apply last_Some in Hlast as [earlier ->].
  assert (last (outputs_of i (all_outputs (earlier ++ [final_res]))) = Some o)
    as Hlatest.
  { rewrite all_outputs_snoc. unfold outputs_of.
    rewrite filter_app, last_app. unfold outputs_of in Ho. by rewrite Ho. }
  assert (o ∈ all_outputs (earlier ++ [final_res])) as Hin.
  { apply last_Some in Hlatest as [l Hl].
    assert (o ∈ outputs_of i (all_outputs (earlier ++ [final_res]))) as Hin.
    { rewrite Hl. apply elem_of_app. right. by apply list_elem_of_singleton. }
    unfold outputs_of in Hin. by apply list_elem_of_filter in Hin as [_ ?]. }
  assert (index o = i) as Hio.
  { apply last_Some in Ho as [l Hl].
    assert (o ∈ outputs_of i (outputs final_res)) as Hin'.
    { rewrite Hl. apply elem_of_app. right. by apply list_elem_of_singleton. }
    unfold outputs_of in Hin'. by apply list_elem_of_filter in Hin' as [? _]. }
  pose proof (stream_outputs_in_range _ _ _ _ _ _ _ _ _ Hrun Hin) as Hrange.
  cbn [initial_stream_state previous_texts] in Hrange.
  rewrite length_replicate, Hio in Hrange.
  destruct (initial_stream_state_lookup request i Hrange) as [Hstart _].
  pose proof (stream_outputs_telescope _ _ _ _ _ _ _ _ i [] Hrun Hstart
                (growing_from_empty _ Hgrow)) as Hsum.
  rewrite app_nil_l, fmap_last, Hlatest in Hsum. simpl in Hsum.
  by rewrite Hsum, Htext.
Qed.

(** ** Terminal chunks *)

Lemma stream_outputs_yields clock request request_id tok
    (outs : list (CompletionOutput float)) st msgs r :
  stream_outputs clock request request_id tok outs st = (msgs, r) →
  ∃ processed,
    processed `prefix_of` outs ∧
    yields request processed msgs ∧
    (is_ok r → processed = outs).
Proof.
  revert st msgs r. induction outs as [|o outs IH]; intros st msgs r H.
  - simpl in H. injection H as <- <-. exists []. by repeat constructor.
  - simpl in H.
    destruct (stream_output _ _ _ _ st o) as [[chunks st1]|e] eqn:Ho.
    + destruct (stream_outputs _ _ _ _ outs st1) as [more r'] eqn:Hrest.
      injection H as <- <-.
      destruct (IH _ _ _ Hrest) as (processed & Hpre & Hyields & Hall).
      exists (o :: processed). split; [by apply prefix_cons|].
      split; [|by intros ->%Hall].
      destruct (stream_output_Ok_lookup _ _ _ _ _ _ _ Ho)
        as (pt & pn & Hpt & Hpn).
      rewrite (stream_output_eq _ _ _ _ _ _ _ _ Hpt Hpn) in Ho.
      destruct (delta_logprobs _ _ _ _ _) as [lp|]; [|done].
      cbv zeta in Ho.
      destruct (finish_reason o) as [reason|] eqn:Hfin; injection Ho as <- <-.
      * apply yields_terminal; [by rewrite Hfin | | | done].
        -- repeat split. by eexists _, _.
        -- split; [done|]. by eexists _, _, _.
      * apply yields_content; [done | | done].
        repeat split. by eexists _, _.
    + injection H as <- <-. exists []. split; [apply prefix_nil|].
      split; [constructor | done].
Qed.



(** ** Serialization *)









(** ** The endpoint *)

(** C6. A request with [echo] true, or with a suffix that is not empty, is
    refused with status 400 and nothing else happens: the world is as it
    was, with no call to a collaborator, no generation started and no
    snapshot pulled. *)
Theorem create_completion_unsupported (env : environment float) request w :
  req_echo request = Some true ∨
  (∃ suffix, req_suffix request = Some suffix ∧ suffix ≠ []) →
  ∃ detail,
    create_completion env request w = (Raise (HTTPException 400 detail), w).
Proof.
  unfold create_completion. intros [Hecho|(suffix & Hsuffix & Hne)].
  - rewrite Hecho. by eexists.
  - rewrite Hsuffix. destruct suffix; [done|].
    destruct (truthy_flag (req_echo request)); by eexists.
Qed.

Lemma aborts_app events1 events2 :
  aborts (events1 ++ events2) = aborts events1 ++ aborts events2.
Proof. apply omap_app. Qed.





Lemma fold_left_add_lengths {A} (f : A → nat) (l : list A) (acc : Z) :
  fold_left Z.add (map (λ x, Z.of_nat (f x)) l) acc
  = acc + Z.of_nat (sum_list_with f l).
Proof.
  revert acc. induction l as [|x l IH]; intros acc; simpl; [lia|].
  rewrite IH. lia.
Qed.

(** C8. A final response is built from the last snapshot, one entry per
    output of that snapshot and in order; its usage counts the prompt token
    ids of that snapshot, the token ids of all its outputs together, and the
    sum of the two. *)
Theorem non_streaming_usage (env : environment float) request request_id
    snapshots w w' c :
  non_streaming_response env request request_id snapshots w
    = (Ok (Final c), w') →
  ∃ final_res u,
    last snapshots = Some final_res ∧
    Forall2 (final_choice_of (engine_tokenizer env) request)
      (outputs final_res) (choices c) ∧
    usage c = Some u ∧
    prompt_tokens u = Z.of_nat (length (prompt_token_ids final_res)) ∧
    completion_tokens u =
      Z.of_nat (sum_list_with (λ o, length (token_ids o)) (outputs final_res)) ∧
    total_tokens u = prompt_tokens u + completion_tokens u.
Proof.
  intros H.
  apply non_streaming_response_Final in H as (final_res & Hlast & Hfinal).
  unfold final_response in Hfinal.
  destruct (final_choices _ _ _ _) as [cs|] eqn:Hcs; [|done].
  cbn [result_bind] in Hfinal. injection Hfinal as <-.
  apply final_choices_Ok in Hcs as (cs' & -> & Hall).
  eexists final_res, _. cbn [choices usage].
  split; [done|]. split; [done|]. split; [done|].
  cbn [prompt_tokens completion_tokens total_tokens].
  split; [done|]. split; [|done].
  unfold num_generated_tokens. by rewrite fold_left_add_lengths.
Qed.

(** ** More on the logprobs builder *)

Lemma dict_get_set_eq {K V} `{EqDecision K} (k : K) (v : V) d :
  Dict.get k (Dict.set k v d) = Some v.
Proof.
  induction d as [|[k' v'] d IH]; simpl.
  - by rewrite decide_True.
  - destruct (decide (k' = k)) as [->|Hne]; simpl.
    + by rewrite decide_True.
    + by rewrite decide_False.
Qed.

Lemma dict_get_set_ne {K V} `{EqDecision K} (k k' : K) (v : V) d :
  k ≠ k' → Dict.get k' (Dict.set k v d) = Dict.get k' d.
Proof.
  intros Hne. induction d as [|[k0 v0] d IH]; simpl.
  - by rewrite decide_False.
  - destruct (decide (k0 = k)) as [->|Hk]; simpl.
    + by rewrite !decide_False.
    + destruct (decide (k0 = k')); [done | apply IH].
Qed.

Lemma top_candidates_fold (tok : tokenizer) (id_logprob : list (Z * float))
    (acc : Dict.t (list N) float) (text : list N) :
  Dict.get text
    (fold_left (λ acc ip, Dict.set (tok ip.1) ip.2 acc) id_logprob acc)
  = match last (filter (λ ip, tok ip.1 = text) id_logprob) with
    | Some ip => Some ip.2
    | None => Dict.get text acc
    end.
Proof.
  revert acc. induction id_logprob as [|[i p] d IH]; intros acc; [done|].
  cbn [fold_left]. rewrite IH, filter_cons. cbn [fst snd].
  destruct (decide (tok i = text)) as [<-|Hne].
  - rewrite last_cons. destruct (last _); [done|]. apply dict_get_set_eq.
  - destruct (last _); [done|]. by apply dict_get_set_ne.
Qed.

(** X1. In the top-candidates map of a position, a token text maps to the
    log-probability of the last candidate that displays as that text, and
    is missing exactly when no candidate does: candidates that display alike
    are merged, the later one winning. *)
Theorem top_candidates_lookup (tok : tokenizer)
    (id_logprob : Dict.t Z float) (text : list N) :
  Dict.get text (top_candidates tok id_logprob)
  = snd <$> last (filter (λ ip, tok ip.1 = text) id_logprob).
Proof.
  unfold top_candidates.
  etrans; [apply (top_candidates_fold tok id_logprob [] text)|].
  by destruct (last _).
Qed.

Lemma offsets_from_app start toks1 toks2 :
  offsets_from start (toks1 ++ toks2)
  = offsets_from start toks1
    ++ offsets_from (start + Z.of_nat (length (concat toks1))) toks2.
Proof.
  revert start. induction toks1 as [|t toks1 IH]; intros start; simpl.
  - by rewrite Z.add_0_r.
  - rewrite IH, length_app. do 3 f_equal. lia.
Qed.

Lemma zip_app_same {A B} (l1 l2 : list A) (k1 k2 : list B) :
  length l1 = length k1 →
  zip (l1 ++ l2) (k1 ++ k2) = zip l1 k1 ++ zip l2 k2.
Proof.
  revert k1. induction l1 as [|x l1 IH]; intros [|y k1] Hlen; try done.
  simpl. f_equal. apply IH. by injection Hlen.
Qed.

Lemma create_logprobs_closed tok token_ids (id_logprobs : list (Dict.t Z float))
    base :
  Forall chosen_present (zip token_ids id_logprobs) →
  create_logprobs tok token_ids id_logprobs base =
    Ok (mkLogprobs
          (offsets_from base (map (λ p, tok p.1) (zip token_ids id_logprobs)))
          (omap (λ p, Dict.get p.1 p.2) (zip token_ids id_logprobs))
          (map (λ p, tok p.1) (zip token_ids id_logprobs))
          (map (λ p, top_candidates tok p.2) (zip token_ids id_logprobs))).
Proof.
  intros Hall. unfold create_logprobs. by rewrite (logprobs_loop_ok _ _ _ _ _ Hall).
Qed.

Lemma create_logprobs_missing tok token_ids (id_logprobs : list (Dict.t Z float))
    base seen token_id id_logprob rest :
  zip token_ids id_logprobs = seen ++ (token_id, id_logprob) :: rest →
  Forall chosen_present seen →
  Dict.get token_id id_logprob = None →
  create_logprobs tok token_ids id_logprobs base = Raise (KeyError token_id).
Proof.
  intros Hzip Hseen Hnone. unfold create_logprobs. rewrite Hzip.
  by apply logprobs_loop_raise.
Qed.

(** X2. Building over two runs of tokens laid end to end, each with its own
    candidate maps, is building over the first run and then over the second
    with the base offset moved on by the display length of the first run:
    the two records are appended, and the first exception, if any, is the
    exception of the whole. *)
Theorem create_logprobs_app tok token_ids1 token_ids2
    (id_logprobs1 id_logprobs2 : list (Dict.t Z float)) base :
  length token_ids1 = length id_logprobs1 →
  create_logprobs tok (token_ids1 ++ token_ids2)
    (id_logprobs1 ++ id_logprobs2) base
  = match create_logprobs tok token_ids1 id_logprobs1 base with
    | Raise e => Raise e
    | Ok r1 =>
        match create_logprobs tok token_ids2 id_logprobs2
                (base + display_length tok token_ids1) with
        | Raise e => Raise e
        | Ok r2 => Ok (append_logprobs r1 r2)
        end
    end.
Proof.
  intros Hlen.
  pose proof (zip_app_same token_ids1 token_ids2 id_logprobs1 id_logprobs2 Hlen)
    as Hzip.
  assert (map (λ p : Z * Dict.t Z float, tok p.1) (zip token_ids1 id_logprobs1)
          = map tok token_ids1) as Htoks.
  { rewrite <- (fst_zip token_ids1 id_logprobs1) at 2 by lia.
    by rewrite map_map. }
  destruct (chosen_present_split (zip token_ids1 id_logprobs1))
    as [Hall1|(seen & t & d & rest & Hz1 & Hseen & Hnone)].
  - rewrite (create_logprobs_closed _ _ _ _ Hall1).
    destruct (chosen_present_split (zip token_ids2 id_logprobs2))
      as [Hall2|(seen & t & d & rest & Hz2 & Hseen & Hnone)].
    + rewrite (create_logprobs_closed _ _ _ _ Hall2).
      rewrite create_logprobs_closed by (rewrite Hzip; by apply Forall_app).
      rewrite Hzip, !map_app, omap_app, offsets_from_app, Htoks.
      reflexivity.
    + rewrite (create_logprobs_missing _ _ _ _ _ _ _ _ Hz2 Hseen Hnone).
      apply (create_logprobs_missing _ _ _ _
               (zip token_ids1 id_logprobs1 ++ seen) t d rest);
        [|by apply Forall_app|done].
      by rewrite Hzip, Hz2, <- app_assoc.
  - rewrite (create_logprobs_missing _ _ _ _ _ _ _ _ Hz1 Hseen Hnone).
    apply (create_logprobs_missing _ _ _ _ seen t d
             (rest ++ zip token_ids2 id_logprobs2)); [|done|done].
    by rewrite Hzip, Hz1, <- app_assoc.
Qed.

Lemma offsets_from_lookup start toks (i : nat) offset :
  offsets_from start toks !! i = Some offset →
  offset = start + Z.of_nat (length (concat (take i toks))).
Proof.
  revert start i. induction toks as [|t toks IH]; intros start i; [done|].
  destruct i as [|i]; simpl.
  - intros [= <-]. lia.
  - intros H. rewrite (IH _ _ H), length_app. lia.
Qed.

Lemma take_zip_display {B} (tok : tokenizer) (token_ids : list Z)
    (k : list B) (i : nat) :
  (i ≤ length k)%nat →
  take i (map (λ p : Z * B, tok p.1) (zip token_ids k))
  = map tok (take i token_ids).
Proof.
  revert k i. induction token_ids as [|x l IH]; intros k i Hi.
  - simpl. by rewrite !take_nil.
  - destruct i as [|i]; [done|]. destruct k as [|y k]; [simpl in Hi; lia|].
    simpl. f_equal. apply IH. simpl in Hi. lia.
Qed.

(** X3. In a returned record, the offset of a position is the base offset
    plus the display length of the tokens before that position; so no
    offset is below the base. *)
Theorem create_logprobs_offset_closed tok token_ids
    (id_logprobs : list (Dict.t Z float)) base r (i : nat) offset :
  create_logprobs tok token_ids id_logprobs base = Ok r →
  text_offset r !! i = Some offset →
  offset = base + display_length tok (take i token_ids) ∧ base ≤ offset.
Proof.
  intros Hr Hi. apply create_logprobs_Ok in Hr as [_ ->].
  cbn [text_offset] in Hi.
  pose proof (lookup_lt_Some _ _ _ Hi) as Hlt.
  rewrite length_offsets_from, length_map, length_zip in Hlt.
  apply offsets_from_lookup in Hi.
  rewrite take_zip_display in Hi by lia.
  unfold display_length. split; [done|lia].
Qed.

(** ** More on the streaming generator *)

(** The two lists keep their lengths. *)
Lemma stream_outputs_lengths clock request request_id tok
    (outs : list (CompletionOutput float)) st msgs st' :
  stream_outputs clock request request_id tok outs st = (msgs, Ok st') →
  length (previous_texts st') = length (previous_texts st) ∧
  length (previous_num_tokens st') = length (previous_num_tokens st).
Proof.
  revert st msgs. induction outs as [|o outs IH]; intros st msgs H.
  - simpl in H. by injection H as <- <-.
  - simpl in H.
    destruct (stream_output _ _ _ _ st o) as [[chunks st1]|e] eqn:Ho; [|done].
    destruct (stream_outputs _ _ _ _ outs st1) as [more r] eqn:Hrest.
    injection H as <- ->.
    destruct (IH _ _ Hrest) as [Ht Hn].
    destruct (stream_output_Ok_state _ _ _ _ _ _ _ _ Ho) as (_ & _ & Ht1 & Hn1).
    by rewrite Ht, Hn, Ht1, Hn1, !length_insert.
Qed.

Lemma stream_output_IndexError clock request request_id tok st
    (output : CompletionOutput float) :
  (length (previous_texts st) ≤ index output)%nat →
  stream_output clock request request_id tok st output = Raise IndexError.
Proof.
  intros Hge. unfold stream_output, list_item.
  by rewrite (lookup_ge_None_2 _ _ Hge).
Qed.

(** X4. An output whose choice index is not below [n] ends the generator with
    an [IndexError]: the chunks of the outputs before it have been yielded,
    nothing is yielded for it or for any output after it. *)
Theorem stream_index_out_of_range clock
    (snapshots : list (RequestOutput float)) request request_id tok
    seen output rest msgs st :
  all_outputs snapshots = seen ++ output :: rest →
  stream_outputs clock request request_id tok seen
    (initial_stream_state request) = (msgs, Ok st) →
  (Z.to_nat (req_n request) ≤ index output)%nat →
  generate_completion_stream_generator clock snapshots request request_id tok
  = (msgs, Some IndexError).
Proof.
  intros Hall Hseen Hge.
  unfold generate_completion_stream_generator.
  rewrite stream_snapshots_flat, Hall, stream_outputs_app, Hseen.
  destruct (stream_outputs_lengths _ _ _ _ _ _ _ _ Hseen) as [Hlen _].
  cbn [initial_stream_state previous_texts] in Hlen.
  rewrite length_replicate in Hlen.
  cbn [stream_outputs].
  rewrite stream_output_IndexError by lia.
  by rewrite app_nil_r.
Qed.

Lemma stream_outputs_total clock request request_id tok
    (outs : list (CompletionOutput float)) st :
  req_logprobs request = None →
  Forall (λ o, index o < length (previous_texts st))%nat outs →
  length (previous_num_tokens st) = length (previous_texts st) →
  ∃ msgs st',
    stream_outputs clock request request_id tok outs st = (msgs, Ok st') ∧
    length msgs =
      (length outs + length (filter (λ o, finish_reason o ≠ None) outs))%nat.
Proof.
  intros Hreq Hall. revert st Hall.
  induction outs as [|o outs IH]; intros st Hall Hlen.
  - by exists [], st.
  - apply Forall_cons in Hall as [Ho Hall].
    destruct (lookup_lt_is_Some_2 (previous_texts st) (index o) Ho)
      as [pt Hpt].
    destruct (lookup_lt_is_Some_2 (previous_num_tokens st) (index o))
      as [pn Hpn]; [lia|].
    pose proof (stream_output_eq clock request request_id tok st o pt pn
                  Hpt Hpn) as Heq.
    unfold delta_logprobs in Heq. rewrite Hreq in Heq. cbv zeta in Heq.
    cbn [stream_outputs]. rewrite filter_cons.
    destruct (finish_reason o) as [reason|] eqn:Hfin; rewrite Heq;
      match goal with
      | |- context [stream_outputs _ _ _ _ outs ?s] =>
          destruct (IH s) as (msgs & st' & Hrun & Hcount);
          [ cbn [previous_texts]; by rewrite length_insert
          | cbn [previous_texts previous_num_tokens];
            by rewrite !length_insert
          | rewrite Hrun; eexists _, st'; split; [done|] ]
      end.
    + rewrite decide_True by done. simpl. rewrite Hcount. lia.
    + rewrite decide_False by (by intros ?). simpl. by rewrite Hcount.
Qed.

(** X5. When the request asks for no logprobs and every choice index is
    below [n], the generator runs to the end without an exception, and
    yields one chunk per output plus one more per output that carries a
    finish reason. *)
Theorem stream_without_logprobs clock
    (snapshots : list (RequestOutput float)) request request_id tok :
  req_logprobs request = None →
  Forall (λ o, index o < Z.to_nat (req_n request))%nat
    (all_outputs snapshots) →
  ∃ msgs,
    generate_completion_stream_generator clock snapshots request request_id
      tok = (msgs, None) ∧
    length msgs =
      (length (all_outputs snapshots) +
       length (filter (λ o, finish_reason o ≠ None) (all_outputs snapshots)))%nat.
Proof.
  intros Hreq Hall.
  destruct (stream_outputs_total clock request request_id tok
              (all_outputs snapshots) (initial_stream_state request) Hreq)
    as (msgs & st' & Hrun & Hcount).
  - cbn [initial_stream_state previous_texts]. by rewrite length_replicate.
  - cbn [initial_stream_state previous_texts previous_num_tokens].
    by rewrite !length_replicate.
  - exists msgs. unfold generate_completion_stream_generator.
    by rewrite stream_snapshots_flat, Hrun.
Qed.

(** Every chunk is the one [Completion] both [yield]s build, and reads the
    clock after the chunks before it. *)
Lemma stream_outputs_chunks clock request request_id tok
    (outs : list (CompletionOutput float)) st msgs r :
  stream_outputs clock request request_id tok outs st = (msgs, r) →
  (∀ (k : nat) d, msgs !! k = Some d →
     ∃ i delta_text lp,
       dump_chunk d =
         stream_chunk request request_id (clock (time_calls st + k)%nat) i
           delta_text lp) ∧
  (∀ st', r = Ok st' → time_calls st' = (time_calls st + length msgs)%nat).
Proof.
  revert st msgs r. induction outs as [|o outs IH]; intros st msgs r H.
  - simpl in H. injection H as <- <-. split; [done|].
    intros st' [= <-]. simpl. lia.
  - simpl in H.
    destruct (stream_output _ _ _ _ st o) as [[chunks st1]|e] eqn:Ho.
    2:{ injection H as <- <-. by split. }
    destruct (stream_outputs _ _ _ _ outs st1) as [more r'] eqn:Hrest.
    injection H as <- <-.
    destruct (IH _ _ _ Hrest) as [IHchunks IHtime].
    destruct (stream_output_Ok_lookup _ _ _ _ _ _ _ Ho)
      as (pt & pn & Hpt & Hpn).
    rewrite (stream_output_eq _ _ _ _ _ _ _ _ Hpt Hpn) in Ho.
    destruct (delta_logprobs _ _ _ _ _) as [lp|]; [|done].
    cbv zeta in Ho.
    destruct (finish_reason o); injection Ho as <- <-; split.
    + intros [|[|k]] d Hk; simpl in Hk.
      * injection Hk as <-. rewrite Nat.add_0_r. by eexists _, _, _.
      * injection Hk as <-. rewrite Nat.add_1_r. by eexists _, _, _.
      * destruct (IHchunks k d Hk) as (i & delta & lp' & Hd).
        cbn [time_calls] in Hd.
        replace (S (S (time_calls st)) + k)%nat
          with (time_calls st + S (S k))%nat in Hd by lia.
        by eexists _, _, _.
    + intros st' Hst'. rewrite (IHtime st' Hst'). simpl. lia.
    + intros [|k] d Hk; simpl in Hk.
      * injection Hk as <-. rewrite Nat.add_0_r. by eexists _, _, _.
      * destruct (IHchunks k d Hk) as (i & delta & lp' & Hd).
        cbn [time_calls] in Hd.
        replace (S (time_calls st) + k)%nat
          with (time_calls st + S k)%nat in Hd by lia.
        by eexists _, _, _.
    + intros st' Hst'. rewrite (IHtime st' Hst'). simpl. lia.
Qed.

(** X6. Every chunk the generator yields, content or terminal, carries the
    id of the request, the model of the request, the object tag
    ["text_completion"], no usage, and exactly one choice, whose finish
    reason is the placeholder ["stop"] whatever the engine reports; the
    [k]-th chunk is stamped with the [k]-th reading of the clock. *)
Theorem stream_chunk_fields clock (snapshots : list (RequestOutput float))
    request request_id tok msgs status (k : nat) d :
  generate_completion_stream_generator clock snapshots request request_id tok
    = (msgs, status) →
  msgs !! k = Some d →
  ∃ i delta_text lp,
    dump_chunk d =
      mkCompletion request_id
        [mkCompletionChoice i delta_text (Some (py "stop")) lp]
        (clock k) (req_model request) (py "text_completion") None.
Proof.
  unfold generate_completion_stream_generator.
  rewrite stream_snapshots_flat. intros Hgen Hk.
  destruct (stream_outputs _ _ _ _ _ _) as [chunks r] eqn:Hrun.
  assert (chunks = msgs) as -> by (destruct r; by injection Hgen).
  destruct (stream_outputs_chunks _ _ _ _ _ _ _ _ Hrun) as [Hchunks _].
  apply (Hchunks k d Hk).
Qed.

Lemma yields_content_indices request (outs : list (CompletionOutput float))
    msgs :
  yields request outs msgs → content_indices msgs = map index outs.
Proof.
  unfold content_indices.
  induction 1 as [|o outs content msgs _ (Hc & _ & d & lp & Hcc) _ IH
                  |o outs content terminal msgs _ (Hc & _ & d & lp & Hcc)
                     (Ht & _) _ IH].
  - done.
  - rewrite filter_cons_True by done. simpl. by rewrite Hcc, IH.
  - rewrite filter_cons_True by done.
    rewrite filter_cons_False by (rewrite Ht; done).
    simpl. by rewrite Hcc, IH.
Qed.

(** X7. The content chunks come one per output and in the order of the
    outputs: snapshot by snapshot, and within a snapshot in the order the
    snapshot lists its outputs. Read in order, their choice indices are
    those of the outputs, all of them when the generator runs to the end and
    a prefix of them when an exception ends it. *)
Theorem stream_chunk_order clock (snapshots : list (RequestOutput float))
    request request_id tok msgs status :
  generate_completion_stream_generator clock snapshots request request_id tok
    = (msgs, status) →
  content_indices msgs `prefix_of` map index (all_outputs snapshots) ∧
  (status = None → content_indices msgs = map index (all_outputs snapshots)).
Proof.
  unfold generate_completion_stream_generator.
  rewrite stream_snapshots_flat. intros Hgen.
  destruct (stream_outputs _ _ _ _ _ _) as [chunks r] eqn:Hrun.
  assert (chunks = msgs ∧ (status = None → is_ok r)) as [-> Hend].
  { destruct r; injection Hgen as <- <-; by split. }
  destruct (stream_outputs_yields _ _ _ _ _ _ _ _ Hrun)
    as (processed & [rest Hpre] & Hyields & Hall).
  rewrite (yields_content_indices _ _ _ Hyields). split.
  - rewrite Hpre, map_app. by eexists.
  - intros Hnone. by rewrite (Hall (Hend Hnone)).
Qed.

(** ** Stripping *)

Lemma strip_replacement_clean text : clean (strip_replacement text).
Proof.
  unfold clean, strip_replacement, remove_char.
  intros Hin. by apply list_elem_of_filter in Hin as [? _].
Qed.

Lemma strip_replacement_id text :
  clean text → strip_replacement text = text.
Proof.
  unfold clean, strip_replacement, remove_char.
  induction text as [|c text IH]; [done|]. intros Hclean.
  apply not_elem_of_cons in Hclean as [Hne Hclean].
  rewrite filter_cons_True by done. by rewrite IH.
Qed.

(** X8. Stripping removes every U+FFFD and nothing else: the result holds
    none, a text that holds none is left as it is, so stripping twice is
    stripping once; and stripping goes through concatenation, so a text that
    extends another still extends it after both are stripped. *)
Theorem strip_replacement_facts (text more : list N) :
  clean (strip_replacement text) ∧
  (clean text → strip_replacement text = text) ∧
  strip_replacement (strip_replacement text) = strip_replacement text ∧
  strip_replacement (text ++ more)
    = strip_replacement text ++ strip_replacement more ∧
  (text `prefix_of` more →
   strip_replacement text `prefix_of` strip_replacement more).
Proof.
  split; [apply strip_replacement_clean|].
  split; [apply strip_replacement_id|].
  split; [apply strip_replacement_id, strip_replacement_clean|].
  split; [apply filter_app|].
  intros [rest ->]. unfold strip_replacement, remove_char.
  rewrite filter_app. by eexists.
Qed.

(** ** More on the endpoint *)

Lemma generations_app events1 events2 :
  generations (events1 ++ events2) = generations events1 ++ generations events2.
Proof. apply omap_app. Qed.

(** What the loop of the non-streaming path logs, however the transport
    answers. *)
Lemma consume_snapshots_trace (env : environment float) request_id snapshots
    final_res w r w' :
  consume_snapshots env request_id snapshots final_res w = (r, w') →
  ∃ evs,
    trace w' = trace w ++ evs ∧
    polls w' = (polls w + polled evs)%nat ∧
    polled evs = pulls evs ∧
    (pulls evs ≤ length snapshots)%nat ∧
    generations evs = [] ∧
    ((r = Ok None ∧ aborts evs = [request_id] ∧
      last evs = Some (EngineAbort request_id)) ∨
     (r = Ok (Some (match last snapshots with
                    | Some res => Some res
                    | None => final_res
                    end)) ∧
      aborts evs = [] ∧ pulls evs = length snapshots)).
Proof.
  revert final_res w r w'.
  induction snapshots as [|res rest IH]; intros fr w r w' H.
  - simpl in H. injection H as <- <-. exists [].
    rewrite app_nil_r. split_and!; try done; try (simpl; lia). by right.
  - simpl in H. unfold bind, emit, poll, ret in H. simpl in H.
    destruct (is_disconnected env (polls w)).
    + injection H as <- <-.
      exists [NextSnapshot; IsDisconnected true; EngineAbort request_id].
      cbn [trace polls]. rewrite <- !app_assoc.
      split_and!; try done; try (unfold polled, pulls; simpl; lia). by left.
    + apply IH in H as (evs & Ht & Hp & Hpp & Hle & Hg & Hr).
      cbn [trace polls] in Ht, Hp.
      exists ([NextSnapshot; IsDisconnected false] ++ evs).
      rewrite Ht, Hp, <- !app_assoc.
      unfold polled, pulls in *.
      rewrite generations_app, aborts_app, !omap_app, !length_app, Hg.
      split_and!; try done; try (simpl; lia).
      destruct Hr as [(-> & Ha & Hl)|(-> & Ha & Hall)]; [left|right].
      * split; [done|]. split; [done|]. by rewrite last_app, Hl.
      * rewrite last_cons. split; [by destruct (last rest)|].
        split; [done|]. simpl. lia.
Qed.

Lemma create_logprobs_Raise tok token_ids (id_logprobs : list (Dict.t Z float))
    base e :
  create_logprobs tok token_ids id_logprobs base = Raise e →
  ¬ Forall chosen_present (zip token_ids id_logprobs) ∧ ∃ k, e = KeyError k.
Proof.
  intros H.
  destruct (chosen_present_split (zip token_ids id_logprobs))
    as [Hall|(seen & t & d & rest & Hz & Hseen & Hnone)].
  - by rewrite (create_logprobs_closed _ _ _ _ Hall) in H.
  - rewrite (create_logprobs_missing _ _ _ _ _ _ _ _ Hz Hseen Hnone) in H.
    injection H as <-. split; [|by eexists].
    rewrite Hz. intros Hall. apply Forall_app in Hall as [_ Hall].
    apply Forall_cons in Hall as [[v Hv] _]. simpl in Hv. congruence.
Qed.

Lemma final_choices_Raise tok request (outs : list (CompletionOutput float))
    acc e :
  final_choices tok request outs acc = Raise e →
  req_logprobs request ≠ None ∧
  ¬ Forall candidates_cover outs ∧
  ∃ k, e = KeyError k.
Proof.
  revert acc. induction outs as [|o outs IH]; intros acc H; [done|].
  simpl in H. destruct (req_logprobs request) as [n|] eqn:Hreq.
  - destruct (create_logprobs _ _ _ _) as [lp|e'] eqn:Hlp.
    + cbn [result_map result_bind] in H.
      destruct (IH _ H) as (_ & Hnot & Hk). split; [done|]. split; [|done].
      intros Hall. apply Forall_cons in Hall as [_ Hall]. by apply Hnot.
    + cbn [result_map result_bind] in H. injection H as <-.
      destruct (create_logprobs_Raise _ _ _ _ _ Hlp) as [Hnot Hk].
      split; [done|]. split; [|done].
      intros Hall. apply Forall_cons in Hall as [Ho _]. by apply Hnot.
  - cbn [result_bind] in H. destruct (IH _ H) as (Hne & _). done.
Qed.

Lemma non_streaming_events (env : environment float) request request_id
    snapshots w r w' :
  non_streaming_response env request request_id snapshots w = (r, w') →
  ∃ evs,
    trace w' = trace w ++ evs ∧
    polled evs = pulls evs ∧
    polls w' = (polls w + polled evs)%nat ∧
    (pulls evs ≤ length snapshots)%nat ∧
    generations evs = [] ∧
    (r ≠ Ok NoResponse → pulls evs = length snapshots ∧ aborts evs = []) ∧
    (r = Ok NoResponse →
     last evs = Some (EngineAbort request_id) ∧ aborts evs = [request_id]).
Proof.
  unfold non_streaming_response, bind. intros H.
  destruct (consume_snapshots _ _ _ _ _) as [r0 w0] eqn:Hloop.
  apply consume_snapshots_trace in Hloop
    as (evs & Ht & Hp & Hpp & Hle & Hg & Hr).
  assert (w' = w0) as ->.
  { destruct Hr as [(-> & _)|(-> & _)]; unfold ret, lift in H; simpl in H.
    - by injection H.
    - destruct (final_response _ _ _ _ _); by injection H. }
  exists evs. split; [done|]. split; [done|]. split; [done|]. split; [done|].
  split; [done|].
  destruct Hr as [(-> & Ha & Hl)|(-> & Ha & Hall)];
    unfold ret, lift in H; simpl in H.
  - injection H as <-. by split.
  - split; [by intros _|].
    destruct (final_response _ _ _ _ _); by injection H as <-.
Qed.



(** The non-streaming path turns no request down. *)
Lemma non_streaming_result (env : environment float) request request_id
    snapshots w r w' :
  non_streaming_response env request request_id snapshots w = (r, w') →
  r = Ok NoResponse ∨ (∃ c, r = Ok (Final c)) ∨
  r = Raise AssertionError ∨ ∃ k, r = Raise (KeyError k).
Proof.
  unfold non_streaming_response, bind. intros H.
  destruct (consume_snapshots _ _ _ _ _) as [r0 w0] eqn:Hloop.
  apply consume_snapshots_result in Hloop as [-> | ->];
    unfold ret, lift in H; simpl in H.
  - injection H as <- _. by left.
  - destruct (last snapshots) as [final_res|]; simpl in H;
      [|injection H as <- _; by right; right; left].
    destruct (final_choices _ _ _ _) as [cs|e] eqn:Hcs; simpl in H;
      injection H as <- _.
    + right. left. by eexists.
    + destruct (final_choices_Raise _ _ _ _ _ Hcs) as (_ & _ & k & ->).
      right. right. right. by eexists.
Qed.

(** The endpoint, path by path. *)
Lemma create_completion_run (env : environment float) request w :
  create_completion env request w =
    if truthy_flag (req_echo request) then
      (Raise (HTTPException 400 (py "echo is not currently supported")), w)
    else if truthy_str (req_suffix request) then
      (Raise (HTTPException 400 (py "suffix is not currently supported")), w)
    else
      match (get_model_inputs env (prepared request)).2 with
      | Some e =>
          (Ok (ErrorReturn e), mkWorld (trace w ++ [GetModelInputs]) (polls w))
      | None =>
          match sampling_params_error env (handled env request)
                  (handle_request env (prepared request)).2 with
          | Some msg =>
              (Raise (HTTPException 400 msg),
               mkWorld ((trace w ++ [GetModelInputs]) ++ [HandleRequest])
                 (polls w))
          | None =>
              let started :=
                mkWorld
                  (((trace w ++ [GetModelInputs]) ++ [HandleRequest]) ++
                   [EngineGenerate (endpoint_request_id env)]) (polls w) in
              if truthy_flag (req_stream (handled env request)) then
                (Ok (EventSource
                       (generate_completion_stream_generator (clock env)
                          (endpoint_snapshots env request)
                          (handled env request) (endpoint_request_id env)
                          (engine_tokenizer env))),
                 started)
              else
                non_streaming_response env (handled env request)
                  (endpoint_request_id env) (endpoint_snapshots env request)
                  started
          end
      end.
Proof.
  unfold create_completion, endpoint_snapshots, handled, prepared,
    endpoint_request_id.
  destruct (truthy_flag (req_echo request)); [done|].
  destruct (truthy_str (req_suffix request)); [done|].
  unfold bind, emit, raise, ret. cbn [trace polls].
  destruct (get_model_inputs env _) as [token_ids [e|]]; [done|].
  cbn [fst snd trace polls].
  destruct (handle_request env _) as [request' stop_token_ids].
  cbn [fst snd].
  destruct (sampling_params_error env request' stop_token_ids); [done|].
  cbn [trace polls]. by destruct (truthy_flag (req_stream request')).
Qed.

(** X10. A request that is turned down, with an [HTTPException] or with the
    error response of [get_model_inputs], has started no generation: at most
    the inputs were prepared and the request handled, nothing was pulled,
    polled or aborted, and every [HTTPException] carries status 400. *)
Theorem create_completion_refused (env : environment float) request w r w' :
  create_completion env request w = (r, w') →
  refused r →
  polls w' = polls w ∧
  (∀ status detail, r = Raise (HTTPException status detail) → status = 400) ∧
  ∃ evs,
    trace w' = trace w ++ evs ∧
    evs `prefix_of` [GetModelInputs; HandleRequest].
Proof.
  rewrite create_completion_run. intros H Href.
  destruct (truthy_flag (req_echo request)).
  { injection H as <- <-. split; [done|]. split; [by intros ?? [= <- _]|].
    exists []. rewrite app_nil_r. split; [done|]. apply prefix_nil. }
  destruct (truthy_str (req_suffix request)).
  { injection H as <- <-. split; [done|]. split; [by intros ?? [= <- _]|].
    exists []. rewrite app_nil_r. split; [done|]. apply prefix_nil. }
  destruct (get_model_inputs env (prepared request)).2.
  { injection H as <- <-. split; [done|]. split; [done|].
    exists [GetModelInputs]. split; [done|]. by exists [HandleRequest]. }
  destruct (sampling_params_error env _ _).
  { injection H as <- <-. split; [done|]. split; [by intros ?? [= <- _]|].
    exists [GetModelInputs; HandleRequest].
    split; [by rewrite <- app_assoc|done]. }
  cbv zeta in H. destruct (truthy_flag (req_stream _)).
  { by injection H as <- <-. }
  apply non_streaming_result in H
    as [->|[[c ->]|[->|[k ->]]]]; done.
Qed.

(** X11. The endpoint starts at most one generation, under the id it drew.
    It aborts exactly when it returns with no response, and then once, as
    the last thing it does, with the id of the generation it started. *)
Theorem create_completion_aborts (env : environment float) request w r w' :
  create_completion env request w = (r, w') →
  ∃ evs,
    trace w' = trace w ++ evs ∧
    (generations evs = [] ∨ generations evs = [endpoint_request_id env]) ∧
    ((r = Ok NoResponse ∧
      aborts evs = [endpoint_request_id env] ∧
      generations evs = [endpoint_request_id env] ∧
      last evs = Some (EngineAbort (endpoint_request_id env))) ∨
     (r ≠ Ok NoResponse ∧ aborts evs = [])).
Proof.
  rewrite create_completion_run. intros H.
  destruct (truthy_flag (req_echo request)).
  { injection H as <- <-. exists []. rewrite app_nil_r.
    split; [done|]. split; [by left|by right]. }
  destruct (truthy_str (req_suffix request)).
  { injection H as <- <-. exists []. rewrite app_nil_r.
    split; [done|]. split; [by left|by right]. }
  destruct (get_model_inputs env (prepared request)).2.
  { injection H as <- <-. exists [GetModelInputs].
    split; [done|]. split; [by left|by right]. }
  destruct (sampling_params_error env _ _).
  { injection H as <- <-. exists [GetModelInputs; HandleRequest].
    split; [by rewrite <- app_assoc|]. split; [by left|by right]. }
  cbv zeta in H. destruct (truthy_flag (req_stream _)).
  { injection H as <- <-.
    exists [GetModelInputs; HandleRequest;
            EngineGenerate (endpoint_request_id env)].
    split; [by rewrite <- !app_assoc|]. split; [by right|by right]. }
  pose proof (non_streaming_result _ _ _ _ _ _ _ H) as Hcases.
  apply non_streaming_events in H
    as (evs & Ht & _ & _ & _ & Hg & Hother & Hnone).
  cbn [trace] in Ht.
  exists ([GetModelInputs; HandleRequest;
           EngineGenerate (endpoint_request_id env)] ++ evs).
  split; [by rewrite Ht, <- !app_assoc|].
  rewrite generations_app, aborts_app, Hg, last_app.
  split; [by right|].
  destruct Hcases as [->|Hcases].
  - left. destruct (Hnone eq_refl) as [Hl Ha].
    rewrite Hl, Ha. by split_and!.
  - right.
    assert (r ≠ Ok NoResponse) as Hne
      by (destruct Hcases as [[c ->]|[->|[k ->]]]; done).
    split; [done|]. destruct (Hother Hne) as [_ Ha]. by rewrite Ha.
Qed.

(** X12. A streaming response is handed back as soon as the generation is
    started: the inputs were prepared, the request handled and the
    generation started under the id drawn, the transport was never polled
    and nothing aborted; the response is the streaming generator over the
    snapshots of that generation. *)
Theorem create_completion_stream (env : environment float) request w run w' :
  create_completion env request w = (Ok (EventSource run), w') →
  trace w' =
    trace w ++ [GetModelInputs; HandleRequest;
                EngineGenerate (endpoint_request_id env)] ∧
  polls w' = polls w ∧
  truthy_flag (req_stream (handled env request)) = true ∧
  run =
    generate_completion_stream_generator (clock env)
      (endpoint_snapshots env request) (handled env request)
      (endpoint_request_id env) (engine_tokenizer env).
Proof.
  rewrite create_completion_run. intros H.
  destruct (truthy_flag (req_echo request)); [done|].
  destruct (truthy_str (req_suffix request)); [done|].
  destruct (get_model_inputs env (prepared request)).2; [done|].
  destruct (sampling_params_error env _ _); [done|].
  cbv zeta in H. destruct (truthy_flag (req_stream _)).
  - injection H as <- <-. cbn [trace polls]. by rewrite <- !app_assoc.
  - apply non_streaming_result in H
      as [[=]|[[c [=]]|[[=]|[k [=]]]]].
Qed.

(** X13. A final response of the endpoint carries the id the generation was
    started under, the object tag ["text_completion"], the first reading of
    the clock and the model of the handled request; it is built from the
    last snapshot of that generation, one entry per output and in order,
    after every snapshot was pulled and nothing aborted. *)
Theorem create_completion_final (env : environment float) request w c w' :
  create_completion env request w = (Ok (Final c), w') →
  completion_id c = endpoint_request_id env ∧
  object c = py "text_completion" ∧
  created c = clock env 0 ∧
  model c = req_model (handled env request) ∧
  (∃ final_res,
     last (endpoint_snapshots env request) = Some final_res ∧
     Forall2 (final_choice_of (engine_tokenizer env) (handled env request))
       (outputs final_res) (choices c)) ∧
  ∃ evs,
    trace w' =
      trace w ++ [GetModelInputs; HandleRequest;
                  EngineGenerate (endpoint_request_id env)] ++ evs ∧
    aborts evs = [] ∧
    pulls evs = length (endpoint_snapshots env request).
Proof.
  rewrite create_completion_run. intros H.
  destruct (truthy_flag (req_echo request)); [done|].
  destruct (truthy_str (req_suffix request)); [done|].
  destruct (get_model_inputs env (prepared request)).2; [done|].
  destruct (sampling_params_error env _ _); [done|].
  cbv zeta in H. destruct (truthy_flag (req_stream _)); [done|].
  pose proof (non_streaming_events _ _ _ _ _ _ _ H)
    as (evs & Ht & _ & _ & _ & _ & Hother & _).
  destruct (Hother ltac:(done)) as [Hpull Habort].
  apply non_streaming_response_Final in H as (final_res & Hlast & Hfinal).
  unfold final_response in Hfinal.
  destruct (final_choices _ _ _ _) as [cs|] eqn:Hcs; [|done].
  cbn [result_bind] in Hfinal. injection Hfinal as <-.
  apply final_choices_Ok in Hcs as (cs' & -> & Hall).
  cbn [completion_id object created model choices].
  split_and!; try done.
  - by exists final_res.
  - exists evs. cbn [trace] in Ht. by rewrite Ht, <- !app_assoc.
Qed.

Lemma clean_drop (n : nat) text : clean text → clean (drop n text).
Proof.
  unfold clean. intros Hclean Hin. apply Hclean.
  rewrite <- (take_drop n text). apply elem_of_app. by right.
Qed.

Lemma stream_outputs_clean clock request request_id tok
    (outs : list (CompletionOutput float)) st msgs r :
  stream_outputs clock request request_id tok outs st = (msgs, r) →
  ∀ d ch, d ∈ msgs → ch ∈ choices (dump_chunk d) → clean (choice_text ch).
Proof.
  revert st msgs r. induction outs as [|o outs IH]; intros st msgs r H d ch.
  - simpl in H. injection H as <- <-. by intros ?%elem_of_nil.
  - simpl in H.
    destruct (stream_output _ _ _ _ st o) as [[chunks st1]|e] eqn:Ho.
    2:{ injection H as <- <-. by intros ?%elem_of_nil. }
    destruct (stream_outputs _ _ _ _ outs st1) as [more r'] eqn:Hrest.
    injection H as <- <-.
    intros [Hd|Hd]%elem_of_app Hch; [|by eapply IH].
    destruct (stream_output_Ok_lookup _ _ _ _ _ _ _ Ho)
      as (pt & pn & Hpt & Hpn).
    rewrite (stream_output_eq _ _ _ _ _ _ _ _ Hpt Hpn) in Ho.
    destruct (delta_logprobs _ _ _ _ _) as [lp|]; [|done].
    cbv zeta in Ho.
    assert (choice_text ch = drop (length pt) (strip_replacement (text o)))
      as ->.
    { destruct (finish_reason o); injection Ho as <- <-;
        repeat (apply elem_of_cons in Hd as [->|Hd]);
        try (by apply elem_of_nil in Hd);
        simpl in Hch; by apply list_elem_of_singleton in Hch as ->. }
    apply clean_drop, strip_replacement_clean.
Qed.

(** X9. No text the endpoint hands back holds a U+FFFD: not the text of a
    choice of a final response, and not the delta text of any chunk of a
    streaming response. *)
Theorem create_completion_clean (env : environment float) request w resp w' :
  create_completion env request w = (Ok resp, w') →
  match resp with
  | Final c => ∀ ch, ch ∈ choices c → clean (choice_text ch)
  | EventSource run =>
      ∀ d ch, d ∈ run.1 → ch ∈ choices (dump_chunk d) →
              clean (choice_text ch)
  | _ => True
  end.
Proof.
  rewrite create_completion_run. intros H.
  destruct (truthy_flag (req_echo request)); [done|].
  destruct (truthy_str (req_suffix request)); [done|].
  destruct (get_model_inputs env (prepared request)).2;
    [by injection H as <- _|].
  destruct (sampling_params_error env _ _); [done|].
  cbv zeta in H. destruct (truthy_flag (req_stream _)).
  - injection H as <- _.
    unfold generate_completion_stream_generator.
    rewrite stream_snapshots_flat.
    destruct (stream_outputs _ _ _ _ _ _) as [chunks r] eqn:Hrun.
    intros d ch Hd. apply (stream_outputs_clean _ _ _ _ _ _ _ _ Hrun d ch).
    by destruct r.
  - destruct resp as [e|run| |c]; try done.
    { apply non_streaming_result in H as [[=]|[[c [=]]|[[=]|[k [=]]]]]. }
    apply non_streaming_response_Final in H as (final_res & _ & Hfinal).
    unfold final_response in Hfinal.
    destruct (final_choices _ _ _ _) as [cs|] eqn:Hcs; [|done].
    cbn [result_bind] in Hfinal. injection Hfinal as <-.
    apply final_choices_Ok in Hcs as (cs' & -> & Hall).
    cbn [choices]. intros ch Hch. rewrite app_nil_l in Hch.
    apply list_elem_of_lookup in Hch as [k Hk].
    destruct (Forall2_lookup_r _ _ _ _ _ Hall Hk) as (o & _ & _ & -> & _).
    apply strip_replacement_clean.
Qed.

(** ** Streamed logprobs against the aggregated logprobs *)

Lemma streamed_tokens_app i (msgs1 msgs2 : list (dumped float)) :
  streamed_tokens i (msgs1 ++ msgs2)
  = streamed_tokens i msgs1 ++ streamed_tokens i msgs2.
Proof.
  unfold streamed_tokens.
  by rewrite filter_app, map_app, concat_app, map_app, concat_app.
Qed.

Lemma create_logprobs_tokens tok token_ids
    (id_logprobs : list (Dict.t Z float)) base r :
  length id_logprobs = length token_ids →
  create_logprobs tok token_ids id_logprobs base = Ok r →
  tokens r = map tok token_ids.
Proof.
  intros Hlen Hr. apply create_logprobs_Ok in Hr as [_ ->]. cbn [tokens].
  rewrite <- (fst_zip token_ids id_logprobs) at 2 by lia.
  by rewrite map_map.
Qed.

Lemma extending_tail {A} (l : list A) lists :
  extending (l :: lists) → extending lists.
Proof. intros H k a b Ha Hb. by apply (H (S k)). Qed.

(** The token texts of a choice add up over the chunks. *)
Lemma stream_outputs_tokens clock request request_id tok
    (outs : list (CompletionOutput float)) st msgs st' i prev :
  req_logprobs request ≠ None →
  stream_outputs clock request request_id tok outs st = (msgs, Ok st') →
  (∀ pn, previous_num_tokens st !! i = Some pn → pn = length prev) →
  extending (prev :: map token_ids (outputs_of i outs)) →
  Forall (λ o, length (logprobs o) = length (token_ids o)) (outputs_of i outs) →
  map tok prev ++ streamed_tokens i msgs
  = map tok (default prev (last (map token_ids (outputs_of i outs)))).
Proof.
  intros Hreq. revert st msgs prev.
  induction outs as [|o outs IH]; intros st msgs prev H Hprev Hext Hlens.
  - simpl in H. injection H as <- <-. simpl. by rewrite app_nil_r.
  - simpl in H.
    destruct (stream_output _ _ _ _ st o) as [[chunks st1]|e] eqn:Ho; [|done].
    destruct (stream_outputs _ _ _ _ outs st1) as [more r] eqn:Hrest.
    injection H as <- ->.
    destruct (stream_output_Ok_lookup _ _ _ _ _ _ _ Ho)
      as (pt & pn & Hpt & Hpn).
    destruct (stream_output_Ok_state _ _ _ _ _ _ _ _ Ho)
      as (_ & Hln & _ & Hn).
    rewrite (stream_output_eq _ _ _ _ _ _ _ _ Hpt Hpn) in Ho.
    unfold delta_logprobs in Ho.
    destruct (req_logprobs request) as [n|]; [|done].
    destruct (create_logprobs _ _ _ _) as [lp|] eqn:Hlp; [|done].
    cbn [result_map result_bind] in Ho. cbv zeta in Ho.
    rewrite streamed_tokens_app.
    rewrite outputs_of_cons in Hext, Hlens |- *.
    destruct (decide (index o = i)) as [<-|Hne].
    + apply Forall_cons in Hlens as [Hlen Hlens]. cbn [map] in Hext |- *.
      rewrite (Hprev pn Hpn) in Hlp.
      destruct (Hext 0%nat prev (token_ids o) eq_refl eq_refl) as [new Hnew].
      assert (tokens lp = map tok new) as Htokens.
      { rewrite Hnew, drop_app_length in Hlp.
        apply (create_logprobs_tokens _ _ _ _ _) in Hlp; [done|].
        rewrite length_drop, Hlen, Hnew, length_app. lia. }
      assert (streamed_tokens (index o) chunks = map tok new) as ->.
      { destruct (finish_reason o); injection Ho as <- <-;
          unfold streamed_tokens, chunk_choices; simpl;
          rewrite app_nil_r, filter_cons, filter_nil; simpl;
          rewrite decide_True by done; simpl; by rewrite app_nil_r. }
      rewrite app_assoc, <- map_app, <- Hnew.
      rewrite (IH st1 more (token_ids o) Hrest).
      * rewrite last_cons. by destruct (last _).
      * intros pn'. rewrite Hn, list_lookup_insert_eq by done.
        by intros [= <-].
      * by eapply extending_tail.
      * done.
    + assert (streamed_tokens i chunks = []) as ->.
      { destruct (finish_reason o); injection Ho as <- <-;
          unfold streamed_tokens, chunk_choices; simpl;
          rewrite app_nil_r, filter_cons, filter_nil; simpl;
          by rewrite decide_False by done. }
      simpl. apply (IH st1 more prev Hrest); [|done|done].
      intros pn'. rewrite Hn, list_lookup_insert_ne by done. apply Hprev.
Qed.

(** The entry of a choice in the final response is built from the latest
    output of the choice. *)
Lemma final_choice_source (env : environment float) request request_id
    snapshots w w' final i c :
  non_streaming_response env request request_id snapshots w
    = (Ok (Final final), w') →
  last (filter (λ c, choice_index c = i) (choices final)) = Some c →
  ∃ o,
    last (outputs_of i (all_outputs snapshots)) = Some o ∧
    final_choice_of (engine_tokenizer env) request o c.
Proof.
  intros Hagg Hc.
  apply non_streaming_response_Final in Hagg as (final_res & Hlast & Hfinal).
  unfold final_response in Hfinal.
  destruct (final_choices _ _ _ _) as [cs|] eqn:Hcs; [|done].
  cbn [result_bind] in Hfinal. injection Hfinal as <-. cbn [choices] in Hc.
  apply final_choices_Ok in Hcs as (cs' & -> & Hall). rewrite app_nil_l in Hc.
  assert (Forall2 (final_choice_of (engine_tokenizer env) request)
            (outputs_of i (outputs final_res))
            (filter (λ c, choice_index c = i) cs')) as Hfilter.
  { apply Forall2_filter; [|done]. intros o c' (Hi & _). by rewrite Hi. }
  apply Forall2_last in Hfilter. rewrite Hc in Hfilter.
  inversion Hfilter as [o c' Hoc Ho|]; subst c'. symmetry in Ho.
  exists o. split; [|done].
  apply last_Some in Hlast as [earlier ->].
  rewrite all_outputs_snoc. unfold outputs_of in *.
  by rewrite filter_app, last_app, Ho.
Qed.

(** X16. Take a request that asks for logprobs, and snapshots in which the
    token ids of choice [i] only grow and come with as many candidate maps
    as tokens. If the streaming generator runs over them to the end and the
    non-streaming path returns a final response from them, then the token
    texts in the logprobs of the content chunks of choice [i], laid end to
    end, are the token texts in the logprobs of the entry of choice [i] in
    the final response. *)
Theorem streamed_tokens_are_final_tokens (env : environment float) clock
    snapshots request request_id msgs w w' final i c lp :
  req_logprobs request ≠ None →
  extending (map token_ids (outputs_of i (all_outputs snapshots))) →
  Forall (λ o, length (logprobs o) = length (token_ids o))
    (outputs_of i (all_outputs snapshots)) →
  generate_completion_stream_generator clock snapshots request request_id
    (engine_tokenizer env) = (msgs, None) →
  non_streaming_response env request request_id snapshots w
    = (Ok (Final final), w') →
  last (filter (λ c, choice_index c = i) (choices final)) = Some c →
  choice_logprobs c = Some lp →
  streamed_tokens i msgs = tokens lp.
Proof.
  intros Hreq Hext Hlens Hgen Hagg Hc Hlp.
  unfold generate_completion_stream_generator in Hgen.
  rewrite stream_snapshots_flat in Hgen.
  destruct (stream_outputs _ _ _ _ _ _) as [chunks [st|e]] eqn:Hrun; [|done].
  injection Hgen as ->.
  destruct (final_choice_source _ _ _ _ _ _ _ _ _ Hagg Hc)
    as (o & Hlatest & _ & _ & _ & Hbuilt).
  pose proof (stream_outputs_tokens _ _ _ _ _ _ _ _ i [] Hreq Hrun) as Hsum.
  destruct (req_logprobs request); [|done].
  destruct Hbuilt as (lp' & Hlp' & Hsome).
  assert (lp' = lp) as -> by congruence.
  assert (length (logprobs o) = length (token_ids o)) as Hlen.
  { rewrite Forall_forall in Hlens. apply Hlens.
    apply last_Some in Hlatest as [l ->]. apply elem_of_app. right.
    by apply list_elem_of_singleton. }
  rewrite (create_logprobs_tokens _ _ _ _ _ Hlen Hlp').
  rewrite app_nil_l, fmap_last, Hlatest in Hsum. apply Hsum.
  - intros pn Hpn. cbn [initial_stream_state previous_num_tokens] in Hpn.
    by apply lookup_replicate in Hpn as [-> _].
  - intros [|k] a b Ha Hb.
    + injection Ha as <-. apply prefix_nil.
    + by apply (Hext k).
  - done.
Qed.

End properties.

(** * The properties at work *)

Lemma streamed_text_is_full_text_witness :
  streamed_text 0
    (generate_completion_stream_generator Examples.clock
       [Examples.first; Examples.second] (Examples.request 1 None)
       Examples.request_id Examples.tok).1
  = py "Hello, world!".
Proof.
  eapply (streamed_text_is_full_text
            (Examples.env [Examples.first; Examples.second] None)
            Examples.clock [Examples.first; Examples.second]
            (Examples.request 1 None) Examples.request_id Examples.tok
            _ initial_world _ _ 0%nat
            (mkCompletionChoice 0 (py "Hello, world!") (Some (py "stop")) None)).
  - intros [|[|k]] earlier later; simpl; try done.
    intros [= <-] [= <-]. by exists (py " world!").
  - vm_compute. reflexivity.
  - vm_compute. reflexivity.
  - vm_compute. reflexivity.
Defined.



Lemma stream_output_delta_witness :
  ∃ chunks st',
    stream_output Examples.clock (Examples.request 1 (Some 1))
      Examples.request_id Examples.tok Examples.after_first
      (mkCompletionOutput 0 (py "Hello, world!") [1; 2; 3]
         [Examples.candidates 1; Examples.candidates 2; Examples.candidates 3]
         (Some (py "stop")))
    = Ok (chunks, st') ∧
    head chunks =
      Some (mkDumped false
              (stream_chunk (Examples.request 1 (Some 1)) Examples.request_id
                 (Examples.clock 1) 0 (py " world!")
                 (Some (mkLogprobs [6] [-1] [py " world!"]
                          [[(py " world!", -1); (py "?", -5)]])))) ∧
    previous_texts st' !! 0%nat = Some (py "Hello, world!") ∧
    previous_num_tokens st' !! 0%nat = Some 3%nat.
Proof.
  pose proof (stream_output_delta Examples.clock (Examples.request 1 (Some 1))
                Examples.request_id Examples.tok (outputs Examples.first)
                _ Examples.after_first
                (mkCompletionOutput 0 (py "Hello, world!") [1; 2; 3]
                   [Examples.candidates 1; Examples.candidates 2;
                    Examples.candidates 3] (Some (py "stop")))
                ltac:(vm_compute; reflexivity) ltac:(vm_compute; lia)) as H.
  vm_compute in H.
  destruct H as (_ & _ & chunks & st' & Hrun & Hhead & _ & _ & Ht & Hn).
  exists chunks, st'.
  split; [exact Hrun|]. split; [exact Hhead|]. split; [exact Ht | exact Hn].
Defined.

Lemma create_logprobs_text_offset_witness :
  length (text_offset Examples.three_tokens) = 3%nat ∧
  text_offset Examples.three_tokens !! 0%nat = Some 7 ∧
  ∃ prev cur token_id,
    text_offset Examples.three_tokens !! 1%nat = Some prev ∧
    text_offset Examples.three_tokens !! 2%nat = Some cur ∧
    [1; 2; 3] !! 1%nat = Some token_id ∧
    tokens Examples.three_tokens !! 1%nat = Some (Examples.tok token_id) ∧
    cur - prev = Z.of_nat (length (Examples.tok token_id)).
Proof.
  destruct (create_logprobs_text_offset Examples.tok [1; 2; 3]
              [Examples.candidates 1; Examples.candidates 2;
               Examples.candidates 3] 7 Examples.three_tokens
              eq_refl eq_refl) as (Hlen & Hfirst & Hstep).
  split; [exact Hlen|]. split; [exact Hfirst|].
  apply (Hstep 1%nat). simpl. lia.
Defined.

(** C5 as stated fails on the code: the chosen token 3 is not among the
    candidates of its position, and what is raised is Python's [KeyError],
    not an error class of the builder's own. *)
Lemma missing_candidate_is_KeyError :
  create_logprobs Examples.tok [3] [Examples.candidates 1] 0
    = Raise (KeyError 3) ∧
  exn_class (KeyError 3) ≠ "MissingCandidateError".
Proof. split; [reflexivity | discriminate]. Qed.

Lemma create_logprobs_chosen_logprob_witness :
  ∃ missing_id,
    create_logprobs Examples.tok [1; 3] [Examples.candidates 1;
                                         Examples.candidates 1] 0
    = Raise (KeyError missing_id).
Proof.
  pose proof (create_logprobs_chosen_logprob Examples.tok [1; 3]
                [Examples.candidates 1; Examples.candidates 1] 0 1%nat 3
                (Examples.candidates 1) eq_refl eq_refl) as H.
  change (Dict.get 3 (Examples.candidates 1)) with (@None Z) in H.
  destruct H as (j & missing_id & c & _ & _ & _ & _ & H & _).
  by exists missing_id.
Defined.

Lemma create_completion_unsupported_witness :
  ∃ detail,
    create_completion (Examples.env [Examples.second] None)
      Examples.echo_request initial_world
    = (Raise (HTTPException 400 detail), initial_world).
Proof. apply create_completion_unsupported. by left. Defined.


Lemma non_streaming_usage_witness :
  ∃ u,
    usage Examples.final = Some u ∧
    prompt_tokens u = 1 ∧
    completion_tokens u = 3 ∧
    total_tokens u = prompt_tokens u + completion_tokens u.
Proof.
  destruct (non_streaming_usage (Examples.env [Examples.second] None)
              (Examples.request 1 None) Examples.request_id
              [Examples.second] initial_world
              (mkWorld [NextSnapshot; IsDisconnected false] 1) Examples.final
              eq_refl)
    as (final_res & u & [= <-] & _ & Hu & Hp & Hc & Ht).
  exists u. split; [exact Hu|]. split; [exact Hp|]. split; [exact Hc|].
  exact Ht.
Defined.

(** ** The scenarios, run *)

(** Two snapshots, "Hello," and "Hello, world!" with a finish reason: two
    content chunks and a terminal chunk that repeats the last delta. *)
Example stream_scenario :
  map (λ d, (dump_exclude_none d, map choice_text (choices (dump_chunk d))))
    (generate_completion_stream_generator Examples.clock
       [Examples.first; Examples.second] (Examples.request 1 None)
       Examples.request_id Examples.tok).1
  = [ (false, [py "Hello,"]); (false, [py " world!"]);
      (true, [py " world!"]) ].
Proof. reflexivity. Qed.

(** The choice of a content chunk writes its missing logprobs as [null], the
    choice of a terminal chunk leaves the field out. *)
Example dump_scenario :
  dump_CompletionChoice false
    (mkCompletionChoice 0 (py " world!") (Some (py "stop")) (@None (Logprobs Z)))
  = JObject [ (py "finish_reason", JStr (py "stop")); (py "index", JInt 0);
              (py "logprobs", JNull); (py "text", JStr (py " world!")) ] ∧
  dump_CompletionChoice true
    (mkCompletionChoice 0 (py " world!") (Some (py "stop")) (@None (Logprobs Z)))
  = JObject [ (py "finish_reason", JStr (py "stop")); (py "index", JInt 0);
              (py "text", JStr (py " world!")) ].
Proof. split; reflexivity. Qed.

(** One finished snapshot on the non-streaming path: one choice with the full
    text, the engine's finish reason, and three completion tokens. *)
Example final_scenario :
  non_streaming_response (Examples.env [Examples.second] None)
    (Examples.request 1 None) Examples.request_id [Examples.second]
    initial_world
  = (Ok (Final Examples.final),
     mkWorld [NextSnapshot; IsDisconnected false] 1).
Proof. reflexivity. Qed.

(** The endpoint on the same request: inputs prepared, generation started,
    one snapshot pulled, no abort. *)
Example endpoint_scenario :
  (create_completion (Examples.env [Examples.second] None)
     (Examples.request 1 None) initial_world).2
  = mkWorld [ GetModelInputs; HandleRequest;
              EngineGenerate (py "cmpl-0123456789abcdef01234567");
              NextSnapshot; IsDisconnected false ] 1.
Proof. reflexivity. Qed.

(** An empty run of snapshots trips the assertion. *)
Example empty_scenario :
  (non_streaming_response (Examples.env [] None) (Examples.request 1 None)
     Examples.request_id [] initial_world).1
  = Raise AssertionError.
Proof. reflexivity. Qed.

(** ** The further properties at work *)

Lemma create_logprobs_app_witness :
  create_logprobs Examples.tok [1; 2; 3]
    [Examples.candidates 1; Examples.candidates 2; Examples.candidates 3] 7
  = Ok Examples.three_tokens.
Proof.
  exact (create_logprobs_app Examples.tok [1; 2] [3]
           [Examples.candidates 1; Examples.candidates 2]
           [Examples.candidates 3] 7 eq_refl).
Defined.

Lemma create_logprobs_offset_closed_witness :
  13 = 7 + display_length Examples.tok [1; 2] ∧ 7 ≤ 13.
Proof.
  exact (create_logprobs_offset_closed Examples.tok [1; 2; 3]
           [Examples.candidates 1; Examples.candidates 2;
            Examples.candidates 3] 7 Examples.three_tokens 2%nat 13
           eq_refl eq_refl).
Defined.

Lemma stream_index_out_of_range_witness :
  (generate_completion_stream_generator Examples.clock Examples.early_finish
     (Examples.request 1 None) Examples.request_id Examples.tok).2
  = Some IndexError.
Proof.
  erewrite (stream_index_out_of_range Examples.clock Examples.early_finish
              (Examples.request 1 None) Examples.request_id Examples.tok
              (take 1 (all_outputs Examples.early_finish))
              (mkCompletionOutput 1 (py "b") [2] [Examples.candidates 2] None)
              (drop 2 (all_outputs Examples.early_finish))).
  - reflexivity.
  - reflexivity.
  - vm_compute. reflexivity.
  - vm_compute. lia.
Defined.

Lemma stream_without_logprobs_witness :
  ∃ msgs,
    generate_completion_stream_generator Examples.clock
      [Examples.first; Examples.second] (Examples.request 1 None)
      Examples.request_id Examples.tok = (msgs, None) ∧
    length msgs = 3%nat.
Proof.
  apply (stream_without_logprobs Examples.clock
           [Examples.first; Examples.second] (Examples.request 1 None)
           Examples.request_id Examples.tok).
  - reflexivity.
  - repeat constructor.
Defined.

Lemma stream_chunk_fields_witness :
  ∃ i delta_text lp,
    dump_chunk
      (mkDumped false
         (stream_chunk (Examples.request 1 None) Examples.request_id
            (Examples.clock 1) 0 (py " world!") (@None (Logprobs Z))))
    = mkCompletion Examples.request_id
        [mkCompletionChoice i delta_text (Some (py "stop")) lp]
        (Examples.clock 1) (req_model (Examples.request 1 None))
        (py "text_completion") None.
Proof.
  eapply (stream_chunk_fields Examples.clock
            [Examples.first; Examples.second] (Examples.request 1 None)
            Examples.request_id Examples.tok _ _ 1%nat).
  - vm_compute. reflexivity.
  - reflexivity.
Defined.

Lemma stream_chunk_order_witness :
  content_indices
    (generate_completion_stream_generator Examples.clock Examples.early_finish
       (Examples.request 2 None) Examples.request_id Examples.tok).1
  = map index (all_outputs Examples.early_finish).
Proof.
  refine (proj2 (stream_chunk_order Examples.clock Examples.early_finish
                   (Examples.request 2 None) Examples.request_id Examples.tok
                   _ None _) eq_refl).
  vm_compute. reflexivity.
Defined.

Lemma create_completion_clean_witness : clean (py "Hello, world!").
Proof.
  apply (create_completion_clean (Examples.env [Examples.second] None)
           (Examples.request 1 None) initial_world (Final Examples.final)
           (mkWorld [ GetModelInputs; HandleRequest;
                      EngineGenerate Examples.request_id;
                      NextSnapshot; IsDisconnected false ] 1)
           eq_refl
           (mkCompletionChoice 0 (py "Hello, world!") (Some (py "stop")) None)).
  apply list_elem_of_here.
Defined.

Lemma create_completion_refused_witness :
  ∃ evs,
    [GetModelInputs; HandleRequest] = trace initial_world ++ evs ∧
    evs `prefix_of` [GetModelInputs; HandleRequest].
Proof.
  apply (create_completion_refused Examples.strict_env (Examples.request 0 None)
           initial_world
           (Raise (HTTPException 400 (py "n must be at least 1")))
           (mkWorld [GetModelInputs; HandleRequest] 0) eq_refl I).
Defined.

Lemma create_completion_aborts_witness :
  ∃ evs,
    trace Examples.disconnect_run.2 = trace initial_world ++ evs ∧
    (generations evs = [] ∨
     generations evs
       = [endpoint_request_id
            (Examples.env [Examples.first; Examples.second] (Some 1%nat))]) ∧
    ((Examples.disconnect_run.1 = Ok NoResponse ∧
      aborts evs
        = [endpoint_request_id
             (Examples.env [Examples.first; Examples.second] (Some 1%nat))] ∧
      generations evs
        = [endpoint_request_id
             (Examples.env [Examples.first; Examples.second] (Some 1%nat))] ∧
      last evs
        = Some (EngineAbort
                  (endpoint_request_id
                     (Examples.env [Examples.first; Examples.second]
                        (Some 1%nat))))) ∨
     (Examples.disconnect_run.1 ≠ Ok NoResponse ∧ aborts evs = [])).
Proof.
  apply (create_completion_aborts
           (Examples.env [Examples.first; Examples.second] (Some 1%nat))
           (Examples.request 1 None) initial_world).
  vm_compute. reflexivity.
Defined.

Lemma create_completion_stream_witness :
  trace Examples.stream_run.2
  = trace initial_world ++
    [ GetModelInputs; HandleRequest;
      EngineGenerate
        (endpoint_request_id
           (Examples.env [Examples.first; Examples.second] None)) ].
Proof.
  refine (proj1 (create_completion_stream
                   (Examples.env [Examples.first; Examples.second] None)
                   Examples.stream_request initial_world _
                   Examples.stream_run.2 _)).
  vm_compute. reflexivity.
Defined.

Lemma create_completion_final_witness :
  completion_id Examples.final
  = endpoint_request_id (Examples.env [Examples.second] None).
Proof.
  refine (proj1 (create_completion_final (Examples.env [Examples.second] None)
                   (Examples.request 1 None) initial_world Examples.final
                   _ _)).
  vm_compute. reflexivity.
Defined.



Lemma streamed_tokens_are_final_tokens_witness :
  streamed_tokens 0
    (generate_completion_stream_generator Examples.clock
       [Examples.first; Examples.second] (Examples.request 1 (Some 1))
       Examples.request_id Examples.tok).1
  = tokens Examples.three_tokens.
Proof.
  eapply (streamed_tokens_are_final_tokens
            (Examples.env [Examples.first; Examples.second] None)
            Examples.clock [Examples.first; Examples.second]
            (Examples.request 1 (Some 1)) Examples.request_id _
            initial_world _ _ 0%nat _
            (mkLogprobs [0; 5; 6] (token_logprobs Examples.three_tokens)
               (tokens Examples.three_tokens)
               (top_logprobs Examples.three_tokens))).
  - discriminate.
  - intros [|[|k]] earlier later; simpl; try done.
    intros [= <-] [= <-]. by exists [3].
  - repeat constructor.
  - vm_compute. reflexivity.
  - vm_compute. reflexivity.
  - vm_compute. reflexivity.
  - reflexivity.
Defined.
